(** * CogSimpleStorage: the CogServer client of atomspace-cog

    A shallow embedding of
    [opencog/persist/cog-simple/CogSimpleStorage.cc]: the parsing of the
    [cog://host[:port]/atomspace-name] identifier, the life cycle of the
    socket ([open], [connected], [close]) and the framing of messages
    ([do_send], [do_recv]).

    The member functions read and write the object ([_uri], [_sockfd])
    and talk to the operating system.  They are embedded as functions
    from a [Session] and an [OS] to an outcome, the session and the
    operating system afterwards.  What the operating system answers is
    not decided by the program; the [OS] carries these answers as two
    queues, and the list of the system calls made so far. *)

From Stdlib Require Import String Ascii List ZArith Bool Lia.
Import ListNotations.
Local Open Scope string_scope.
Local Open Scope Z_scope.

(** ** C strings and the members of [std::string] the code uses *)

Module Str.

Definition NUL : ascii := "000"%char.
Definition LF : ascii := "010"%char.
(** The "synchronous idle" control character, [0x16]. *)
Definition SYN : ascii := "022"%char.

(** What a pointer to these characters denotes as a C string: the
    characters before the first NUL.  The constructor of [std::string]
    from a character pointer and its [operator+=] read their argument
    this way. *)
Fixpoint c_str (s : string) : string :=
  match s with
  | EmptyString => EmptyString
  | String c r => if Ascii.eqb c NUL then EmptyString else String c (c_str r)
  end.

Definition code (c : ascii) : Z := Z.of_nat (nat_of_ascii c).

(** [strncmp(a, b, n)] on two C strings. *)
Fixpoint strncmp (a b : string) (n : nat) {struct n} : Z :=
  match n with
  | O => 0
  | S n' =>
      match a, b with
      | EmptyString, EmptyString => 0
      | EmptyString, String y _ => 0 - code y
      | String x _, EmptyString => code x
      | String x a', String y b' =>
          if Ascii.eqb x y then strncmp a' b' n' else code x - code y
      end
  end.

Fixpoint mem (c : ascii) (set : string) : bool :=
  match set with
  | EmptyString => false
  | String d r => Ascii.eqb c d || mem c r
  end.

(** [s.find_first_of(set)]; [None] is [std::string::npos]. *)
Fixpoint find_first_of (s set : string) : option nat :=
  match s with
  | EmptyString => None
  | String c r =>
      if mem c set then Some O
      else option_map S (find_first_of r set)
  end.

(** [s.find(c)]. *)
Definition find_char (s : string) (c : ascii) : option nat :=
  find_first_of s (String c EmptyString).

(** [s + pos] on the characters, and [s.substr(pos)] when [pos] is in
    range. *)
Fixpoint drop (pos : nat) (s : string) : string :=
  match pos, s with
  | O, _ => s
  | S p, String _ r => drop p r
  | S _, EmptyString => EmptyString
  end.

Fixpoint take (n : nat) (s : string) : string :=
  match n, s with
  | S m, String c r => String c (take m r)
  | _, _ => EmptyString
  end.

(** [s.find(c, pos)]. *)
Definition find_from (s : string) (c : ascii) (pos : nat) : option nat :=
  if Nat.ltb (String.length s) pos then None
  else option_map (Nat.add pos) (find_char (drop pos s) c).

(** [s.substr(pos)]: throws [std::out_of_range] ([None]) when [pos] is
    beyond the end. *)
Definition substr_from (s : string) (pos : nat) : option string :=
  if Nat.ltb (String.length s) pos then None else Some (drop pos s).

(** [s.substr(0, n)], which never throws. *)
Definition substr0 (s : string) (n : nat) : string := take n s.

(** [buf[i]] for the buffer that [recv] filled with the characters
    [s] and the code closed with [buf[len] = 0]. *)
Fixpoint char_at (i : nat) (s : string) : ascii :=
  match s, i with
  | EmptyString, _ => NUL
  | String c _, O => c
  | String _ r, S j => char_at j r
  end.

(** A text: no NUL among its characters. *)
Fixpoint is_text (s : string) : bool :=
  match s with
  | EmptyString => true
  | String c r => negb (Ascii.eqb c NUL) && is_text r
  end.

End Str.

(** ** The endpoint *)

(** [sizeof("cog://") - 1]. *)
Definition URIX_LEN : nat := 6.

Definition DEFAULT_COGSERVER_PORT : string := "17001".

(** Lines 80-96 of [open]: the host and the port handed to
    [getaddrinfo].  [std::string host(uri + URIX_LEN)] reads the stored
    identifier as a C string behind the six characters of the scheme
    ([init] has checked that they are there).  [None] stands for the
    [std::out_of_range] of [substr]. *)
Definition resolve (_uri : string) : option (string * string) :=
  let host := Str.drop URIX_LEN (Str.c_str _uri) in
  let host :=
    match Str.find_first_of host ":/" with
    | Some slash => Str.substr0 host slash
    | None => host
    end in
  match Str.find_from _uri ":" (URIX_LEN + String.length host) with
  | Some colon =>
      match Str.substr_from _uri (colon + 1) with
      | Some port =>
          match Str.find_char port "/" with
          | Some slash => Some (host, Str.substr0 port slash)
          | None => Some (host, port)
          end
      | None => None
      end
  | None => Some (host, DEFAULT_COGSERVER_PORT)
  end.

(** ** The object and the operating system *)

(** The data members.  [_mtx] is left out: the embedding runs one member
    function at a time, and the [lock_guard] of [open] releases the
    mutex on every way out. *)
Record Session : Type := mkSession {
  _uri : string;
  _sockfd : Z
}.

Definition set_sockfd (fd : Z) (this : Session) : Session :=
  {| _uri := _uri this; _sockfd := fd |}.

(** What a member function can throw: every
    [throw IOException(TRACE_INFO, ...)] of the file, named after its
    message ([errno] stands for [strerror(errno)]), and the
    [std::out_of_range] of [substr]. *)
Inductive exception : Type :=
| Unknown_URI (uri : string)
    (* "Unknown URI '%s'\n": InvalidURI *)
| Unknown_host (host : string) (rc : Z)
    (* "Unknown host %s: %s": ConnectionError *)
| Unable_to_create_socket (host : string) (errno : Z)
    (* "Unable to create socket to host %s: %s": ConnectionError *)
| Unable_to_connect (host : string) (errno : Z)
    (* "Unable to connect to host %s: %s": ConnectionError *)
| Unable_to_talk_at_host (host : string) (errno : Z)
    (* "Unable to talk to cogserver at host %s: %s" *)
| Not_connected
    (* "Not connected to cogserver!": NotConnected *)
| Unable_to_talk (errno : Z)
    (* "Unable to talk to cogserver: %s": TransportError *)
| Unexpectedly_closed
    (* "Cogserver unexpectedly closed connection": PeerClosed *)
| std_out_of_range.

Inductive sockopt : Type := TCP_NODELAY | TCP_QUICKACK.

(** The calls the program makes, with the arguments that matter. *)
Inductive syscall : Type :=
| sys_getaddrinfo (host port : string)
| sys_socket
| sys_connect (fd : Z)
| sys_setsockopt (fd : Z) (opt : sockopt)
| sys_send (fd : Z) (data : string)
| sys_recv (fd : Z) (len : Z)
| sys_close (fd : Z)
| sys_fprintf_stderr (errno : Z).

(** What [recv] answers: a negative length, or the characters it put in
    the buffer (none when the peer has closed the stream). *)
Inductive recv_answer : Type :=
| recv_error (errno : Z)
| recv_data (buf : string).

(** The operating system, as far as the program sees it.  (The
    [addrinfo] that [getaddrinfo] fills and [free] releases is left
    out: the code only passes it on to [socket] and [connect].)
    [fds]: the descriptors this process holds.  [answers]: the return
    value, and [errno] when it is negative, of the calls to come that
    return an [int] ([getaddrinfo], [socket], [connect], [setsockopt],
    [send]).  [incoming]: what the calls of [recv] to come return.
    [calls]: the calls made so far, oldest first. *)
Record OS : Type := mkOS {
  fds : list Z;
  answers : list (Z * Z);
  incoming : list recv_answer;
  calls : list syscall
}.

Definition log (c : syscall) (w : OS) : OS :=
  {| fds := fds w; answers := answers w; incoming := incoming w;
     calls := calls w ++ [c] |}.

Definition set_answers (a : list (Z * Z)) (w : OS) : OS :=
  {| fds := fds w; answers := a; incoming := incoming w; calls := calls w |}.

Definition set_incoming (i : list recv_answer) (w : OS) : OS :=
  {| fds := fds w; answers := answers w; incoming := i; calls := calls w |}.

Definition set_fds (l : list Z) (w : OS) : OS :=
  {| fds := l; answers := answers w; incoming := incoming w;
     calls := calls w |}.

(** ** Member functions as state transformers *)

(** A call returns, throws, or never comes back: the queue of answers
    has run dry, the system call blocks for ever. *)
Inductive outcome (A : Type) : Type :=
| Returns (a : A)
| Throws (e : exception)
| Hangs.
Arguments Returns {A} a.
Arguments Throws {A} e.
Arguments Hangs {A}.

Definition M (A : Type) : Type := Session -> OS -> outcome A * Session * OS.

Definition ret {A} (a : A) : M A := fun this w => (Returns a, this, w).

Definition throw {A} (e : exception) : M A :=
  fun this w => (Throws e, this, w).

Definition bind {A B} (m : M A) (f : A -> M B) : M B :=
  fun this w =>
    match m this w with
    | (Returns a, this', w') => f a this' w'
    | (Throws e, this', w') => (Throws e, this', w')
    | (Hangs, this', w') => (Hangs, this', w')
    end.

Declare Scope cog_scope.
Delimit Scope cog_scope with cog.
Notation "x <- m ;; k" := (bind m (fun x => k))
  (at level 61, m at next level, right associativity) : cog_scope.
Notation "m ;; k" := (bind m (fun _ => k))
  (at level 61, right associativity) : cog_scope.
Local Open Scope cog_scope.

(** A system call that returns an [int]: the next answer of the queue.
    A descriptor [socket] returns is held by the process from then on. *)
Definition call (c : syscall) : M (Z * Z) :=
  fun this w =>
    match answers w with
    | [] => (Hangs, this, log c w)
    | (rc, errno) :: rest =>
        let w1 := log c (set_answers rest w) in
        let w2 :=
          match c with
          | sys_socket => if 0 <=? rc then set_fds (rc :: fds w1) w1 else w1
          | _ => w1
          end in
        (Returns (rc, errno), this, w2)
    end.

(** [unistd_close(fd)]; no caller looks at what it returns. *)
Definition unistd_close (fd : Z) : M unit :=
  fun this w =>
    (Returns tt, this, log (sys_close fd) (set_fds (remove Z.eq_dec fd (fds w)) w)).

Definition fprintf_stderr (errno : Z) : M unit :=
  fun this w => (Returns tt, this, log (sys_fprintf_stderr errno) w).

Definition assign_sockfd (fd : Z) : M unit :=
  fun this w => (Returns tt, set_sockfd fd this, w).

(** [init] and the constructor: no system call, the object exists only
    when [init] does not throw. *)
Definition init (uri : string) (this : Session) : exception + Session :=
  if negb (Str.strncmp uri "cog://" URIX_LEN =? 0) then inl (Unknown_URI uri)
  else inr {| _uri := uri; _sockfd := _sockfd this |}.

Definition CogSimpleStorage (uri : string) : exception + Session :=
  init (Str.c_str uri) {| _uri := ""; _sockfd := -1 |}.

Definition connected (this : Session) : bool := 0 <? _sockfd this.

Definition close : M unit :=
  fun this w =>
    ((if connected this then unistd_close (_sockfd this) else ret tt) ;;
     assign_sockfd (-1)) this w.

Definition do_send (str : string) : M unit :=
  fun this w =>
    if negb (connected this) then throw Not_connected this w
    else
      (r <- call (sys_send (_sockfd this) str) ;;
       if fst r <? 0 then throw (Unable_to_talk (snd r)) else ret tt) this w.

(** The [while (true)] of [do_recv].  Each turn takes one answer off
    [incoming], so the loop is a recursion on that queue; [w] is the
    operating system with the answers before [pending] taken off. *)
Fixpoint do_recv_loop (garbage : bool) (rb : string) (first_time : bool)
    (pending : list recv_answer) (this : Session) (w : OS)
    : outcome string * Session * OS :=
  let w := log (sys_recv (_sockfd this) 4096) w in
  match pending with
  | [] => (Hangs, this, set_incoming [] w)
  | recv_error errno :: rest =>
      (Throws (Unable_to_talk errno), this, set_incoming rest w)
  | recv_data buf :: rest =>
      let w := set_incoming rest w in
      let len := Z.of_nat (String.length buf) in
      if len =? 0 then
        (unistd_close (_sockfd this) ;;
         assign_sockfd 0 ;;
         throw Unexpectedly_closed) this w
      else if (1 =? len) && Ascii.eqb Str.SYN (Str.char_at 0 buf) then
        do_recv_loop garbage rb first_time rest this w
      else if first_time && (len <? 4096)
              && (Ascii.eqb Str.LF (Str.char_at (String.length buf - 1) buf)
                  || garbage) then
        (Returns (Str.c_str buf), this, w)
      else
        let rb := rb ++ Str.c_str buf in
        if Ascii.eqb Str.LF (Str.char_at (String.length buf - 1) buf)
        then (Returns rb, this, w)
        else do_recv_loop garbage rb false rest this w
  end.

Definition do_recv (garbage : bool) : M string :=
  fun this w =>
    if negb (connected this) then throw Not_connected this w
    else do_recv_loop garbage "" true (incoming w) this w.

(** ** [open] *)

Section Open.

(** Whether [__APPLE__] is defined where the file is compiled. *)
Variable apple : bool.

(** [open] calls [do_recv()] without an argument.  The default value
    of [garbage] is given where [do_recv] is declared, in
    [CogSimpleStorage.h]. *)
Variable garbage_default : bool.

Definition setsockopt_or_complain (fd : Z) (opt : sockopt) : M unit :=
  r <- call (sys_setsockopt fd opt) ;;
  if fst r <? 0 then fprintf_stderr (snd r) else ret tt.

(** The text sent to get the s-expression shell ([USE_GUILE_INSTEAD]
    is not set: with it the file declares [eval] twice). *)
Definition eval : string := "sexpr" ++ String Str.LF "".

Definition open : M unit :=
  fun this w =>
    if connected this then ret tt this w
    else
      match resolve (_uri this) with
      | None => throw std_out_of_range this w
      | Some (host, port) =>
          (r <- call (sys_getaddrinfo host port) ;;
           if negb (fst r =? 0) then throw (Unknown_host host (fst r))
           else
             r <- call sys_socket ;;
             assign_sockfd (fst r) ;;
             if fst r <? 0 then throw (Unable_to_create_socket host (snd r))
             else
               let sockfd := fst r in
               r <- call (sys_connect sockfd) ;;
               if fst r <? 0 then throw (Unable_to_connect host (snd r))
               else
                 setsockopt_or_complain sockfd TCP_NODELAY ;;
                 (if apple then ret tt
                  else setsockopt_or_complain sockfd TCP_QUICKACK) ;;
                 r <- call (sys_send sockfd eval) ;;
                 if fst r <? 0
                 then throw (Unable_to_talk_at_host host (snd r))
                 else
                   do_recv garbage_default ;;
                   ret tt) this w
      end.

End Open.

(** ** The vocabulary of the statements *)

(** A chunk that the loop takes for a keepalive: one character, [0x16]. *)
Definition idle (buf : string) : bool :=
  (1 =? Z.of_nat (String.length buf)) && Ascii.eqb Str.SYN (Str.char_at 0 buf).

Definition idle_answer (a : recv_answer) : bool :=
  match a with
  | recv_data buf => idle buf
  | recv_error _ => false
  end.

Definition newline_terminated (buf : string) : bool :=
  Ascii.eqb Str.LF (Str.char_at (String.length buf - 1) buf).

(** The calls the loop makes. *)
Definition recv_or_close (c : syscall) : bool :=
  match c with
  | sys_recv _ _ | sys_close _ => true
  | _ => false
  end.

(** Chunks on which the loop goes on reading: none is empty, and each is
    an idle character or neither returned by the short cut of the first
    turn nor ended by a newline. *)
Fixpoint keeps_reading (garbage first_time : bool) (chunks : list string)
    : bool :=
  match chunks with
  | [] => true
  | buf :: more =>
      negb (Z.of_nat (String.length buf) =? 0) &&
      (if idle buf then keeps_reading garbage first_time more
       else
         negb (first_time && (Z.of_nat (String.length buf) <? 4096)
               && (newline_terminated buf || garbage))
         && negb (newline_terminated buf)
         && keeps_reading garbage false more)
  end.

Definition nl : string := String Str.LF "".

(** A session on descriptor 3, as [open] leaves it after [socket]
    returned 3. *)
Definition session3 : Session :=
  {| _uri := "cog://localhost/my-space"; _sockfd := 3 |}.

(** No character of [s] is one of [set]. *)
Fixpoint avoids (set s : string) : bool :=
  match s with
  | EmptyString => true
  | String c r => negb (Str.mem c set) && avoids set r
  end.

(** A host name: a text without [:] and [/]. *)
Definition host_ok (h : string) : bool :=
  Str.is_text h && avoids ":/" h.

(** A port: a text without [/]. *)
Definition port_ok (p : string) : bool :=
  Str.is_text p && avoids "/" p.

(** The calls [open] makes before the handshake. *)
Definition is_setup (c : syscall) : bool :=
  match c with
  | sys_getaddrinfo _ _ | sys_socket | sys_connect _
  | sys_setsockopt _ _ | sys_fprintf_stderr _ => true
  | _ => false
  end.

(** The object holds a valid positive descriptor: [_sockfd] is positive
    and is a descriptor the process holds. *)
Definition holds_descriptor (this : Session) (w : OS) : Prop :=
  0 < _sockfd this /\ In (_sockfd this) (fds w).

(** What every member function keeps: a positive [_sockfd] is a
    descriptor the process holds. *)
Definition sockfd_held (this : Session) (w : OS) : Prop :=
  0 < _sockfd this -> In (_sockfd this) (fds w).

(** What a caller can ask of a session. *)
Inductive request : Type :=
| req_open
| req_close
| req_send (str : string)
| req_recv (garbage : bool).

Definition serve (apple garbage_default : bool) (r : request) : M unit :=
  match r with
  | req_open => open apple garbage_default
  | req_close => close
  | req_send str => do_send str
  | req_recv garbage => do_recv garbage ;; ret tt
  end.

(** The session and the operating system after a list of requests; a
    caller that catches an exception goes on with the next one. *)
Fixpoint run (apple garbage_default : bool) (reqs : list request)
    (this : Session) (w : OS) : Session * OS :=
  match reqs with
  | [] => (this, w)
  | r :: more =>
      let '(_, this', w') := serve apple garbage_default r this w in
      run apple garbage_default more this' w'
  end.

Definition answers_ok : list (Z * Z) :=
  [(0, 0); (3, 0); (0, 0); (0, 0); (0, 0); (6, 0)].

(** A [send] of the text that asks for the s-expression shell. *)
Definition is_handshake (c : syscall) : bool :=
  match c with
  | sys_send _ data => String.eqb data eval
  | _ => false
  end.

Definition handshakes (cs : list syscall) : nat :=
  List.length (filter is_handshake cs).

(** Modelled from the spec: the default value of the argument [garbage]
    of [do_recv], which is declared in [CogSimpleStorage.h].  The spec
    gives the signature as [receive(expectGreeting=false)]. *)
Definition do_recv_default_garbage : bool := false.

(** The greeting of the CogServer: no newline at its end. *)
Definition prompt : string := "opencog> ".

(** ** The rest of the class, and more vocabulary *)

(** [~CogSimpleStorage()]: the destructor calls [close]. *)
Definition CogSimpleStorage_destructor : M unit := close.

(** What the chunks of a message add up to: the idle ones dropped, the
    others read as C strings and put end to end. *)
Fixpoint message (chunks : list string) : string :=
  match chunks with
  | [] => ""
  | buf :: more =>
      if idle buf then message more else Str.c_str buf ++ message more
  end.

(** An answer of [recv] that brings no NUL. *)
Definition text_answer (a : recv_answer) : bool :=
  match a with
  | recv_data buf => Str.is_text buf
  | recv_error _ => true
  end.

Definition is_recv (c : syscall) : bool :=
  match c with
  | sys_recv _ _ => true
  | _ => false
  end.

(** The process holds no descriptor above 0 but the one in [_sockfd]. *)
Definition holds_only_sockfd (this : Session) (w : OS) : Prop :=
  forall fd, In fd (fds w) -> fd = _sockfd this \/ fd <= 0.

(** One more [recv] when the call never came back from it. *)
Definition blocked {A} (o : outcome A) : nat :=
  match o with
  | Hangs => 1%nat
  | _ => 0%nat
  end.

(** The [close] of the descriptor when the peer has closed. *)
Definition closes {A} (o : outcome A) (fd : Z) : list syscall :=
  match o with
  | Throws Unexpectedly_closed => [sys_close fd]
  | _ => []
  end.

(** What a [do_recv] that throws [e] has done to the object and to the
    descriptors of the process. *)
Definition left_by_do_recv (e : exception) (this : Session) (w : OS)
    (this' : Session) (w' : OS) : Prop :=
  match e with
  | Not_connected => connected this = false /\ this' = this /\ w' = w
  | Unable_to_talk _ =>
      connected this = true /\ this' = this /\ fds w' = fds w
  | Unexpectedly_closed =>
      connected this = true /\ this' = set_sockfd 0 this /\
      fds w' = remove Z.eq_dec (_sockfd this) (fds w)
  | _ => False
  end.

(** What an [open] that throws [e] has done to the object and to the
    descriptors of the process, [host] being the host of the
    identifier. *)
Definition left_by_open (e : exception) (host : string) (this : Session)
    (w : OS) (this' : Session) (w' : OS) : Prop :=
  _uri this' = _uri this /\
  match e with
  | Unknown_host h rc =>
      h = host /\ rc <> 0 /\ this' = this /\ fds w' = fds w /\
      handshakes (calls w') = handshakes (calls w)
  | Unable_to_create_socket h _ =>
      h = host /\ _sockfd this' < 0 /\ fds w' = fds w /\
      handshakes (calls w') = handshakes (calls w)
  | Unable_to_connect h _ =>
      h = host /\ 0 <= _sockfd this' /\ fds w' = _sockfd this' :: fds w /\
      handshakes (calls w') = handshakes (calls w)
  | Unable_to_talk_at_host h _ =>
      h = host /\ 0 <= _sockfd this' /\ fds w' = _sockfd this' :: fds w
  | Not_connected => _sockfd this' = 0 /\ fds w' = 0 :: fds w
  | Unable_to_talk _ => 0 < _sockfd this' /\ fds w' = _sockfd this' :: fds w
  | Unexpectedly_closed =>
      _sockfd this' = 0 /\
      exists fd, 0 < fd /\ fds w' = remove Z.eq_dec fd (fd :: fds w)
  | Unknown_URI _ | std_out_of_range => False
  end.

(** The exceptions of [open] from before it has a socket, and the ones
    from after. *)
Definition before_socket (e : exception) : bool :=
  match e with
  | Unknown_host _ _ | Unable_to_create_socket _ _ => true
  | _ => false
  end.

Definition after_socket (e : exception) : bool :=
  match e with
  | Unable_to_connect _ _ | Unable_to_talk_at_host _ _ | Unable_to_talk _ =>
      true
  | _ => false
  end.

(** The first answer of [recv] that is not an idle character. *)
Definition first_chunk (pending : list recv_answer) : option recv_answer :=
  find (fun a => negb (idle_answer a)) pending.

(** A first chunk on which the greeting flag changes nothing: empty,
    ended by a newline, or of the full 4096 characters. *)
Definition flag_free (a : option recv_answer) : bool :=
  match a with
  | Some (recv_data buf) =>
      (Z.of_nat (String.length buf) =? 0) || newline_terminated buf
      || negb (Z.of_nat (String.length buf) <? 4096)
  | _ => true
  end.

(** * Properties *)

(** ** Facts about C strings *)

Module StrFacts.
Import Str.

Lemma c_str_text (s : string) : is_text s = true -> c_str s = s.
Proof.
  induction s as [|c r IH]; simpl; [reflexivity|].
  destruct (Ascii.eqb c NUL); simpl; [discriminate|].
  intros H. now rewrite IH.
Qed.

Lemma length_zero (s : string) :
  (Z.of_nat (String.length s) =? 0) = true -> s = "".
Proof.
  destruct s; [reflexivity|]. simpl String.length.
  intros H. apply Z.eqb_eq in H. lia.
Qed.

Lemma length_pos (s : string) :
  s <> "" -> (Z.of_nat (String.length s) =? 0) = false.
Proof.
  destruct s; [congruence|]. intros _. simpl String.length.
  apply Z.eqb_neq. lia.
Qed.

End StrFacts.

(** ** The receive loop *)

Lemma idle_iff (buf : string) :
  idle buf = true <-> buf = String Str.SYN "".
Proof.
  unfold idle. split.
  - intros H. apply andb_true_iff in H. destruct H as [Hl Hc].
    apply Z.eqb_eq in Hl.
    destruct buf as [|c [|d r]]; simpl String.length in Hl; try lia.
    cbn [Str.char_at] in Hc. apply Ascii.eqb_eq in Hc. now subst.
  - intros ->. reflexivity.
Qed.

Lemma newline_terminated_not_empty (buf : string) :
  newline_terminated buf = true -> buf <> "".
Proof. intros H ->. discriminate H. Qed.

Lemma newline_terminated_not_idle (buf : string) :
  newline_terminated buf = true -> idle buf = false.
Proof.
  intros H. destruct (idle buf) eqn:E; [|reflexivity].
  apply idle_iff in E. subst. discriminate H.
Qed.

(** One turn of the loop on an idle character: the same loop, same
    [rb], same [first_time], on the answers behind it. *)
Lemma do_recv_loop_idle garbage rb first_time rest this w :
  do_recv_loop garbage rb first_time
    (recv_data (String Str.SYN "") :: rest) this w =
  do_recv_loop garbage rb first_time rest this
    (set_incoming rest (log (sys_recv (_sockfd this) 4096) w)).
Proof. reflexivity. Qed.

(** One turn of the loop on a chunk that ends a message. *)
Lemma do_recv_loop_newline garbage rb first_time buf rest this w :
  newline_terminated buf = true ->
  do_recv_loop garbage rb first_time (recv_data buf :: rest) this w =
  (Returns (if first_time && (Z.of_nat (String.length buf) <? 4096)
            then Str.c_str buf else rb ++ Str.c_str buf),
   this, set_incoming rest (log (sys_recv (_sockfd this) 4096) w)).
Proof.
  intros H.
  pose proof (newline_terminated_not_idle _ H) as Hi.
  pose proof (StrFacts.length_pos _ (newline_terminated_not_empty _ H)) as Hl.
  unfold idle, newline_terminated in *.
  cbn [do_recv_loop]. rewrite Hl, Hi, H. cbn [orb].
  destruct (first_time && _); [|reflexivity].
  now rewrite andb_true_r.
Qed.

(** One turn of the loop when [recv] returns zero. *)
Lemma do_recv_loop_zero garbage rb first_time rest this w :
  do_recv_loop garbage rb first_time (recv_data "" :: rest) this w =
  (Throws Unexpectedly_closed, set_sockfd 0 this,
   log (sys_close (_sockfd this))
     (set_fds (remove Z.eq_dec (_sockfd this) (fds w))
        (set_incoming rest (log (sys_recv (_sockfd this) 4096) w)))).
Proof. reflexivity. Qed.

(** The outcome and the session do not depend on the idle characters
    among the answers, nor on the rest of the operating system. *)
Lemma do_recv_loop_erase_idle pending :
  forall garbage rb first_time this w w',
    fst (do_recv_loop garbage rb first_time pending this w) =
    fst (do_recv_loop garbage rb first_time
           (filter (fun a => negb (idle_answer a)) pending) this w').
Proof.
  induction pending as [|[errno|buf] rest IH]; intros; [reflexivity..|].
  cbn [filter idle_answer].
  destruct (idle buf) eqn:Hidle.
  - apply idle_iff in Hidle. subst buf.
    rewrite do_recv_loop_idle. cbn [negb]. apply IH.
  - cbn [negb do_recv_loop]. unfold idle in Hidle. rewrite Hidle.
    destruct (Z.of_nat (String.length buf) =? 0); [reflexivity|].
    destruct (first_time && _ && _); [reflexivity|].
    destruct (Ascii.eqb Str.LF _); [reflexivity|].
    apply IH.
Qed.

(** What the loop does to the object and to the queue: it leaves the
    object alone unless it throws "unexpectedly closed", and it throws
    that only after a [recv] that returned zero. *)
Lemma do_recv_loop_frame pending :
  forall garbage rb first_time this w o this' w',
    do_recv_loop garbage rb first_time pending this w = (o, this', w') ->
    (this' = this /\ o <> Throws Unexpectedly_closed) \/
    (o = Throws Unexpectedly_closed /\ this' = set_sockfd 0 this /\
     exists before, pending = (before ++ recv_data "" :: incoming w')%list).
Proof.
  induction pending as [|[errno|buf] rest IH]; intros garbage rb first_time
    this w o this' w' H.
  - injection H as <- <- <-. left. split; [reflexivity|discriminate].
  - injection H as <- <- <-. left. split; [reflexivity|discriminate].
  - cbn [do_recv_loop] in H.
    destruct (Z.of_nat (String.length buf) =? 0) eqn:Hlen.
    + apply StrFacts.length_zero in Hlen. subst buf.
      injection H as <- <- <-. right.
      split; [reflexivity|]. split; [reflexivity|].
      exists []. reflexivity.
    + assert (Hrec : forall rb1 ft1 w1,
                 do_recv_loop garbage rb1 ft1 rest this w1 = (o, this', w') ->
                 (this' = this /\ o <> Throws Unexpectedly_closed) \/
                 (o = Throws Unexpectedly_closed /\ this' = set_sockfd 0 this /\
                  exists before,
                    recv_data buf :: rest =
                    (before ++ recv_data "" :: incoming w')%list)).
      { intros rb1 ft1 w1 H1. apply IH in H1.
        destruct H1 as [H1|(Ho & Hs & before & Hb)]; [now left|].
        right. split; [assumption|]. split; [assumption|].
        exists (recv_data buf :: before). now rewrite Hb. }
      destruct (_ && Ascii.eqb Str.SYN _); [now apply Hrec in H|].
      destruct (first_time && _ && _).
      { injection H as <- <- <-. left. split; [reflexivity|discriminate]. }
      destruct (Ascii.eqb Str.LF _); [|now apply Hrec in H].
      injection H as <- <- <-. left. split; [reflexivity|discriminate].
Qed.

Lemma do_recv_loop_os pending :
  forall garbage rb first_time this w o this' w',
    do_recv_loop garbage rb first_time pending this w = (o, this', w') ->
    answers w' = answers w /\
    (exists made, calls w' = (calls w ++ made)%list /\
                  forallb recv_or_close made = true) /\
    (o <> Throws Unexpectedly_closed -> fds w' = fds w).
Proof.
  induction pending as [|[errno|buf] rest IH]; intros garbage rb first_time
    this w o this' w' H.
  - injection H as <- <- <-. cbn. split; [reflexivity|]. split; [|reflexivity].
    now exists [sys_recv (_sockfd this) 4096].
  - injection H as <- <- <-. cbn. split; [reflexivity|]. split; [|reflexivity].
    now exists [sys_recv (_sockfd this) 4096].
  - cbn [do_recv_loop] in H.
    assert (Hrec : forall rb1 ft1,
               do_recv_loop garbage rb1 ft1 rest this
                 (set_incoming rest (log (sys_recv (_sockfd this) 4096) w)) =
               (o, this', w') ->
               answers w' = answers w /\
               (exists made, calls w' = (calls w ++ made)%list /\
                             forallb recv_or_close made = true) /\
               (o <> Throws Unexpectedly_closed -> fds w' = fds w)).
    { intros rb1 ft1 H1. apply IH in H1. cbn in H1.
      destruct H1 as (Ha & (made & Hc & Hm) & Hf).
      split; [assumption|]. split; [|assumption].
      exists (sys_recv (_sockfd this) 4096 :: made).
      rewrite Hc, <- app_assoc. split; [reflexivity|]. exact Hm. }
    destruct (Z.of_nat (String.length buf) =? 0).
    { injection H as <- <- <-. cbn. split; [reflexivity|]. split; [|congruence].
      exists [sys_recv (_sockfd this) 4096; sys_close (_sockfd this)].
      now rewrite <- app_assoc. }
    destruct (_ && Ascii.eqb Str.SYN _); [now apply Hrec in H|].
    destruct (first_time && _ && _).
    { injection H as <- <- <-. cbn. split; [reflexivity|]. split; [|reflexivity].
      now exists [sys_recv (_sockfd this) 4096]. }
    destruct (Ascii.eqb Str.LF _); [|now apply Hrec in H].
    injection H as <- <- <-. cbn. split; [reflexivity|]. split; [|reflexivity].
    now exists [sys_recv (_sockfd this) 4096].
Qed.

Lemma do_recv_loop_zero_after before :
  forall garbage rb first_time rest this w,
    keeps_reading garbage first_time before = true ->
    exists w' made,
      do_recv_loop garbage rb first_time
        (map recv_data before ++ recv_data "" :: rest)%list this w =
      (Throws Unexpectedly_closed, set_sockfd 0 this, w') /\
      incoming w' = rest /\
      fds w' = remove Z.eq_dec (_sockfd this) (fds w) /\
      calls w' = (calls w ++ made ++ [sys_close (_sockfd this)])%list.
Proof.
  induction before as [|buf more IH]; intros garbage rb first_time rest this w H.
  - cbn [map app]. rewrite do_recv_loop_zero.
    eexists. exists [sys_recv (_sockfd this) 4096].
    split; [reflexivity|]. cbn. rewrite <- app_assoc. auto.
  - cbn [keeps_reading] in H. cbn [map app do_recv_loop].
    apply andb_true_iff in H. destruct H as [Hlen H].
    apply negb_true_iff in Hlen. rewrite Hlen.
    unfold idle, newline_terminated in H.
    destruct (_ && Ascii.eqb Str.SYN _).
    + destruct (IH garbage rb first_time rest this
                  (set_incoming (map recv_data more ++ recv_data "" :: rest)%list
                     (log (sys_recv (_sockfd this) 4096) w)) H)
        as (w' & made & Heq & Hi & Hf & Hc).
      exists w', (sys_recv (_sockfd this) 4096 :: made).
      rewrite Heq. cbn in Hc, Hf. rewrite Hc, <- app_assoc. auto.
    + apply andb_true_iff in H. destruct H as [H Hmore].
      apply andb_true_iff in H. destruct H as [Hfast Hnl].
      apply negb_true_iff in Hfast, Hnl. rewrite Hfast, Hnl.
      destruct (IH garbage (rb ++ Str.c_str buf) false rest this
                  (set_incoming (map recv_data more ++ recv_data "" :: rest)%list
                     (log (sys_recv (_sockfd this) 4096) w)) Hmore)
        as (w' & made & Heq & Hi & Hf & Hc).
      exists w', (sys_recv (_sockfd this) 4096 :: made).
      rewrite Heq. cbn in Hc, Hf. rewrite Hc, <- app_assoc. auto.
Qed.

Lemma do_recv_connected garbage this w :
  connected this = true ->
  do_recv garbage this w = do_recv_loop garbage "" true (incoming w) this w.
Proof. intros H. unfold do_recv. now rewrite H. Qed.

Lemma do_recv_not_connected garbage this w :
  connected this = false ->
  do_recv garbage this w = (Throws Not_connected, this, w).
Proof. intros H. unfold do_recv. now rewrite H. Qed.

Lemma do_send_not_connected str this w :
  connected this = false ->
  do_send str this w = (Throws Not_connected, this, w).
Proof. intros H. unfold do_send. now rewrite H. Qed.

(** ** Receiving *)

(** C1.  A chunk of one character [0x16] is dropped: the loop goes on
    with [rb] and [first_time] as they were.  On a connected session, an
    idle chunk followed by a newline-terminated chunk of text makes
    [do_recv] return that text.  The outcome of [do_recv] and the object
    afterwards are the same as on the answers with the idle chunks taken
    out: no idle character gets into a message. *)
Theorem do_recv_discards_idle (garbage : bool) (this : Session) (w : OS) :
  (forall rb first_time rest,
      do_recv_loop garbage rb first_time
        (recv_data (String Str.SYN "") :: rest) this w =
      do_recv_loop garbage rb first_time rest this
        (set_incoming rest (log (sys_recv (_sockfd this) 4096) w))) /\
  (forall buf rest,
      connected this = true ->
      incoming w = recv_data (String Str.SYN "") :: recv_data buf :: rest ->
      newline_terminated buf = true ->
      Str.is_text buf = true ->
      exists w',
        do_recv garbage this w = (Returns buf, this, w') /\
        incoming w' = rest) /\
  fst (do_recv garbage this w) =
  fst (do_recv garbage this
         (set_incoming
            (filter (fun a => negb (idle_answer a)) (incoming w)) w)).
Proof.
  split; [|split].
  - intros. apply do_recv_loop_idle.
  - intros buf rest Hc Hin Hnl Htext.
    rewrite (do_recv_connected _ _ _ Hc), Hin, do_recv_loop_idle.
    rewrite (do_recv_loop_newline _ _ _ _ _ _ _ Hnl).
    rewrite (StrFacts.c_str_text _ Htext).
    exists (set_incoming rest
              (log (sys_recv (_sockfd this) 4096)
                 (set_incoming (recv_data buf :: rest)
                    (log (sys_recv (_sockfd this) 4096) w)))).
    split; [|reflexivity].
    now destruct (true && _).
  - unfold do_recv. destruct (negb (connected this)); [reflexivity|].
    apply do_recv_loop_erase_idle.
Qed.

Lemma do_recv_discards_idle_witness :
  exists w',
    do_recv false session3
      (mkOS [3] [] [recv_data (String Str.SYN ""); recv_data ("pong" ++ nl)] [])
    = (Returns ("pong" ++ nl), session3, w') /\
    incoming w' = [].
Proof.
  apply (proj1 (proj2 (do_recv_discards_idle false session3
           (mkOS [3] [] [recv_data (String Str.SYN "");
                         recv_data ("pong" ++ nl)] []))));
    reflexivity.
Defined.

(** C2.  On a connected session, when [recv] returns zero, at once or
    after chunks on which the loop went on reading, [do_recv] closes the
    descriptor, stores 0 in [_sockfd] and throws "Cogserver unexpectedly
    closed connection"; [connected] is false afterwards. *)
Theorem do_recv_zero_read_peer_closed (garbage : bool) (this : Session)
    (w : OS) (before : list string) (rest : list recv_answer) :
  connected this = true ->
  keeps_reading garbage true before = true ->
  incoming w = (map recv_data before ++ recv_data "" :: rest)%list ->
  exists this' w' made,
    do_recv garbage this w = (Throws Unexpectedly_closed, this', w') /\
    _sockfd this' = 0 /\
    _uri this' = _uri this /\
    connected this' = false /\
    incoming w' = rest /\
    ~ In (_sockfd this) (fds w') /\
    calls w' = (calls w ++ made ++ [sys_close (_sockfd this)])%list.
Proof.
  intros Hc Hk Hin.
  destruct (do_recv_loop_zero_after before garbage "" true rest this w Hk)
    as (w' & made & Heq & Hi & Hf & Hcalls).
  exists (set_sockfd 0 this), w', made.
  rewrite (do_recv_connected _ _ _ Hc), Hin, Heq.
  repeat split; try assumption.
  rewrite Hf. apply remove_In.
Qed.

Lemma do_recv_zero_read_peer_closed_witness :
  exists this' w' made,
    do_recv false session3
      (mkOS [3] [] [recv_data "(Concept "; recv_data ""] []) =
    (Throws Unexpectedly_closed, this', w') /\
    _sockfd this' = 0 /\
    _uri this' = _uri session3 /\
    connected this' = false /\
    incoming w' = [] /\
    ~ In (_sockfd session3) (fds w') /\
    calls w' = ([] ++ made ++ [sys_close (_sockfd session3)])%list.
Proof.
  apply (do_recv_zero_read_peer_closed false session3
           (mkOS [3] [] [recv_data "(Concept "; recv_data ""] [])
           ["(Concept "] []); reflexivity.
Defined.

(** C3, as the claim has it, fails on a first chunk that is the idle
    character: short, not ended by a newline, and yet dropped; [do_recv]
    reads again and returns the next chunk. *)
Lemma do_recv_greeting_idle_chunk :
  let w := mkOS [3] [] [recv_data (String Str.SYN "");
                        recv_data ("pong" ++ nl)] [] in
  connected session3 = true /\
  Z.of_nat (String.length (String Str.SYN "")) < 4096 /\
  newline_terminated (String Str.SYN "") = false /\
  do_recv true session3 w =
    (Returns ("pong" ++ nl), session3,
     mkOS [3] [] [] [sys_recv 3 4096; sys_recv 3 4096]) /\
  fst (fst (do_recv true session3 w)) <> Returns (String Str.SYN "").
Proof.
  cbv zeta. repeat split; try reflexivity. discriminate.
Qed.

(** C3, amended.  On a connected session, when the first [recv] of
    [do_recv(true)] returns a chunk of fewer than 4096 characters that
    does not end in a newline and is not the idle character, [do_recv]
    returns after this one [recv], and the message is the chunk read as
    a C string: the chunk itself when it holds no NUL. *)
Theorem do_recv_greeting_short_chunk (this : Session) (w : OS)
    (buf : string) (rest : list recv_answer) :
  connected this = true ->
  incoming w = recv_data buf :: rest ->
  0 < Z.of_nat (String.length buf) < 4096 ->
  newline_terminated buf = false ->
  idle buf = false ->
  do_recv true this w =
    (Returns (Str.c_str buf), this,
     set_incoming rest (log (sys_recv (_sockfd this) 4096) w)) /\
  (Str.is_text buf = true -> Str.c_str buf = buf).
Proof.
  intros Hc Hin Hlen Hnl Hidle.
  split; [|apply StrFacts.c_str_text].
  rewrite (do_recv_connected _ _ _ Hc), Hin. cbn [do_recv_loop].
  unfold idle in Hidle. rewrite Hidle.
  replace (Z.of_nat (String.length buf) =? 0) with false
    by (symmetry; apply Z.eqb_neq; lia).
  replace (Z.of_nat (String.length buf) <? 4096) with true
    by (symmetry; apply Z.ltb_lt; lia).
  now rewrite orb_true_r.
Qed.

Lemma do_recv_greeting_short_chunk_witness :
  do_recv true session3 (mkOS [3] [] [recv_data "opencog> "] []) =
    (Returns (Str.c_str "opencog> "), session3,
     set_incoming [] (log (sys_recv (_sockfd session3) 4096)
                        (mkOS [3] [] [recv_data "opencog> "] []))) /\
  (Str.is_text "opencog> " = true -> Str.c_str "opencog> " = "opencog> ").
Proof.
  apply (do_recv_greeting_short_chunk session3
           (mkOS [3] [] [recv_data "opencog> "] []) "opencog> " []);
    try reflexivity.
  simpl; lia.
Defined.

(** C10.  [do_send] never changes the object, so after a failed [send]
    ("Unable to talk to cogserver") [_sockfd] is what it was and
    [connected] is still true.  When [do_recv] throws for a failed
    [recv], the object is unchanged and [connected] is still true.
    [do_recv] changes the object only when it throws "unexpectedly
    closed", which it does only after a [recv] that returned zero. *)
Theorem transport_error_keeps_sockfd (this : Session) (w : OS) :
  (forall str rc errno rest,
      connected this = true ->
      answers w = (rc, errno) :: rest ->
      rc < 0 ->
      do_send str this w =
        (Throws (Unable_to_talk errno), this,
         log (sys_send (_sockfd this) str) (set_answers rest w))) /\
  (forall str, snd (fst (do_send str this w)) = this) /\
  (forall garbage errno rest,
      connected this = true ->
      incoming w = recv_error errno :: rest ->
      do_recv garbage this w =
        (Throws (Unable_to_talk errno), this,
         set_incoming rest (log (sys_recv (_sockfd this) 4096) w))) /\
  (forall garbage errno this' w',
      do_recv garbage this w = (Throws (Unable_to_talk errno), this', w') ->
      this' = this /\ connected this' = true) /\
  (forall garbage o this' w',
      do_recv garbage this w = (o, this', w') ->
      this' <> this ->
      o = Throws Unexpectedly_closed /\
      exists before,
        incoming w = (before ++ recv_data "" :: incoming w')%list).
Proof.
  split; [|split; [|split; [|split]]].
  - intros str rc errno rest Hc Ha Hrc.
    unfold do_send, bind, call. rewrite Hc, Ha. cbn.
    now replace (rc <? 0) with true by (symmetry; apply Z.ltb_lt; lia).
  - intros str. unfold do_send, bind, call.
    destruct (negb (connected this)); [reflexivity|].
    destruct (answers w) as [|[rc errno] rest]; [reflexivity|].
    cbn. now destruct (rc <? 0).
  - intros garbage errno rest Hc Hin.
    now rewrite (do_recv_connected _ _ _ Hc), Hin.
  - intros garbage errno this' w' H. unfold do_recv in H.
    destruct (connected this) eqn:Hc; [|discriminate H].
    apply do_recv_loop_frame in H.
    destruct H as [[-> _]|[H _]]; [now split|discriminate H].
  - intros garbage o this' w' H Hne. unfold do_recv in H.
    destruct (connected this) eqn:Hc.
    + apply do_recv_loop_frame in H.
      destruct H as [[-> _]|(Ho & _ & Hb)]; [congruence|now split].
    + injection H as <- <- <-. congruence.
Qed.

Lemma transport_error_keeps_sockfd_witness :
  do_send ("ping" ++ nl) session3 (mkOS [3] [(-1, 32)] [] []) =
    (Throws (Unable_to_talk 32), session3,
     log (sys_send (_sockfd session3) ("ping" ++ nl))
       (set_answers [] (mkOS [3] [(-1, 32)] [] []))).
Proof.
  apply (proj1 (transport_error_keeps_sockfd session3
                  (mkOS [3] [(-1, 32)] [] []))
           ("ping" ++ nl) (-1) 32 []);
    [reflexivity | reflexivity | lia].
Defined.

(** ** Closing *)

(** C7.  [close] returns, and afterwards [connected] is false, every
    [do_send] and every [do_recv] throws "Not connected to cogserver!"
    and changes nothing (so the ones after it do the same).  On an
    object that is not connected [close] makes no system call: the
    operating system is as it was, and so is the object when [_sockfd]
    was -1.  A second [close] changes nothing at all. *)
Theorem close_disconnects (this : Session) (w : OS) :
  exists this' w',
    close this w = (Returns tt, this', w') /\
    connected this' = false /\
    (forall str w2, do_send str this' w2 = (Throws Not_connected, this', w2)) /\
    (forall garbage w2,
        do_recv garbage this' w2 = (Throws Not_connected, this', w2)) /\
    (connected this = false -> w' = w) /\
    (_sockfd this = -1 -> this' = this) /\
    close this' w' = (Returns tt, this', w').
Proof.
  unfold close, bind.
  destruct (connected this) eqn:Hc; cbn;
    (eexists; eexists; split; [reflexivity|]);
    (split; [reflexivity|]);
    (split; [intros; now apply do_send_not_connected|]);
    (split; [intros; now apply do_recv_not_connected|]);
    (split; [|split; [|reflexivity]]);
    try discriminate; try reflexivity;
    destruct this as [uri fd]; cbn; now intros ->.
Qed.

Lemma close_disconnects_witness :
  exists this' w',
    close (set_sockfd (-1) session3) (mkOS [] [] [] []) =
      (Returns tt, this', w') /\
    connected this' = false /\
    w' = mkOS [] [] [] [] /\
    this' = set_sockfd (-1) session3.
Proof.
  destruct (close_disconnects (set_sockfd (-1) session3) (mkOS [] [] [] []))
    as (this' & w' & Hclose & Hconn & _ & _ & Hos & Hobj & _).
  exists this', w'.
  split; [exact Hclose|]. split; [exact Hconn|].
  split; [apply Hos|apply Hobj]; reflexivity.
Defined.

(** ** The endpoint of an identifier *)

Lemma strlen_app (a b : string) :
  String.length (a ++ b) = (String.length a + String.length b)%nat.
Proof. induction a as [|c a IH]; simpl; [reflexivity|now rewrite IH]. Qed.

Lemma drop_app (a b : string) : Str.drop (String.length a) (a ++ b) = b.
Proof. induction a as [|c a IH]; simpl; [now destruct b|exact IH]. Qed.

Lemma take_app (a b : string) : Str.take (String.length a) (a ++ b) = a.
Proof.
  induction a as [|c a IH]; simpl; [now destruct b|now rewrite IH].
Qed.

Lemma c_str_app (a b : string) :
  Str.is_text a = true -> Str.c_str (a ++ b) = a ++ Str.c_str b.
Proof.
  induction a as [|c a IH]; simpl; [reflexivity|].
  destruct (Ascii.eqb c Str.NUL); simpl; [discriminate|].
  intros H. now rewrite IH.
Qed.

Lemma find_first_of_app (set a b : string) :
  avoids set a = true ->
  Str.find_first_of (a ++ b) set =
  option_map (Nat.add (String.length a)) (Str.find_first_of b set).
Proof.
  induction a as [|c a IH]; simpl.
  - intros _. now destruct (Str.find_first_of b set).
  - destruct (Str.mem c set); simpl; [discriminate|].
    intros H. rewrite (IH H).
    now destruct (Str.find_first_of b set).
Qed.

Lemma find_first_of_avoids (set a : string) :
  avoids set a = true -> Str.find_first_of a set = None.
Proof.
  induction a as [|c a IH]; simpl; [reflexivity|].
  destruct (Str.mem c set); simpl; [discriminate|].
  intros H. now rewrite (IH H).
Qed.

(** The host, for both forms of the identifier: what stands between the
    scheme and the first [:] or [/]. *)
Lemma resolve_host (h rest : string) (sep : ascii) :
  host_ok h = true ->
  Str.mem sep ":/" = true ->
  sep <> Str.NUL ->
  let host := Str.drop URIX_LEN (Str.c_str ("cog://" ++ h ++ String sep rest)) in
  match Str.find_first_of host ":/" with
  | Some slash => Str.substr0 host slash
  | None => host
  end = h.
Proof.
  intros Hh Hsep Hnul. apply andb_true_iff in Hh. destruct Hh as [Htext Hav].
  cbn -[Str.find_first_of]. rewrite (c_str_app _ _ Htext).
  rewrite (find_first_of_app _ _ _ Hav).
  cbn [Str.c_str]. apply Ascii.eqb_neq in Hnul. rewrite Hnul.
  cbn [Str.find_first_of]. rewrite Hsep. cbn [option_map].
  rewrite Nat.add_0_r. apply take_app.
Qed.

Lemma resolve_unfold (uri : string) (h : string) :
  (let host := Str.drop URIX_LEN (Str.c_str uri) in
   match Str.find_first_of host ":/" with
   | Some slash => Str.substr0 host slash
   | None => host
   end) = h ->
  resolve uri =
  match Str.find_from uri ":" (URIX_LEN + String.length h) with
  | Some colon =>
      match Str.substr_from uri (colon + 1) with
      | Some port =>
          match Str.find_char port "/" with
          | Some slash => Some (h, Str.substr0 port slash)
          | None => Some (h, port)
          end
      | None => None
      end
  | None => Some (h, DEFAULT_COGSERVER_PORT)
  end.
Proof. intros <-. reflexivity. Qed.

Lemma length_behind_scheme (h rest : string) :
  String.length ("cog://" ++ h ++ rest) =
  (URIX_LEN + String.length h + String.length rest)%nat.
Proof. cbn. now rewrite strlen_app. Qed.

Lemma drop_behind_host (h rest : string) :
  Str.drop (URIX_LEN + String.length h) ("cog://" ++ h ++ rest) = rest.
Proof. cbn. apply drop_app. Qed.

Lemma drop_behind_sep (h rest : string) (sep : ascii) :
  Str.drop (URIX_LEN + String.length h + 1) ("cog://" ++ h ++ String sep rest)
  = rest.
Proof.
  cbn. induction h as [|c h IH]; [now destruct rest|exact IH].
Qed.

(** The identifier with a port. *)
Lemma resolve_with_port (h p n : string) :
  host_ok h = true ->
  port_ok p = true ->
  resolve ("cog://" ++ h ++ ":" ++ p ++ "/" ++ n) = Some (h, p).
Proof.
  intros Hh Hp. apply andb_true_iff in Hp. destruct Hp as [_ Hp].
  change ("cog://" ++ h ++ ":" ++ p ++ "/" ++ n)
    with ("cog://" ++ h ++ String ":" (p ++ String "/" n)).
  rewrite (resolve_unfold _ h)
    by (apply resolve_host; [assumption|reflexivity|discriminate]).
  unfold Str.find_from, Str.substr_from.
  rewrite length_behind_scheme, drop_behind_host.
  replace (_ <? _)%nat with false by (symmetry; apply Nat.ltb_ge; lia).
  cbn [Str.find_char Str.find_first_of Str.mem orb option_map].
  rewrite Ascii.eqb_refl. cbn [orb option_map].
  rewrite Nat.add_0_r.
  replace (_ <? _)%nat with false
    by (symmetry; apply Nat.ltb_ge; cbn [String.length]; lia).
  rewrite drop_behind_sep.
  unfold Str.find_char.
  rewrite (find_first_of_app _ _ _ Hp).
  cbn [Str.find_first_of Str.mem]. rewrite Ascii.eqb_refl.
  cbn [orb option_map]. rewrite Nat.add_0_r.
  unfold Str.substr0. now rewrite take_app.
Qed.

(** The identifier without a port, when the name of the atomspace holds
    no [:]. *)
Lemma resolve_without_port (h n : string) :
  host_ok h = true ->
  avoids ":" n = true ->
  resolve ("cog://" ++ h ++ "/" ++ n) = Some (h, DEFAULT_COGSERVER_PORT).
Proof.
  intros Hh Hn.
  change ("cog://" ++ h ++ "/" ++ n) with ("cog://" ++ h ++ String "/" n).
  rewrite (resolve_unfold _ h)
    by (apply resolve_host; [assumption|reflexivity|discriminate]).
  unfold Str.find_from.
  rewrite length_behind_scheme, drop_behind_host.
  replace (_ <? _)%nat with false by (symmetry; apply Nat.ltb_ge; lia).
  unfold Str.find_char.
  cbn [Str.find_first_of Str.mem orb]. 
  replace (Ascii.eqb "/" ":") with false by reflexivity.
  cbn [orb]. now rewrite (find_first_of_avoids _ _ Hn).
Qed.

Lemma find_first_of_bound (s set : string) (i : nat) :
  Str.find_first_of s set = Some i -> (i < String.length s)%nat.
Proof.
  revert i. induction s as [|c r IH]; cbn; [discriminate|].
  intros i. destruct (Str.mem c set).
  - intros [= <-]. lia.
  - destruct (Str.find_first_of r set) as [j|]; [|discriminate].
    intros [= <-]. specialize (IH j eq_refl). lia.
Qed.

Lemma length_drop (pos : nat) (s : string) :
  String.length (Str.drop pos s) = (String.length s - pos)%nat.
Proof.
  revert s. induction pos as [|p IH]; intros s; cbn.
  - lia.
  - destruct s as [|c r]; cbn; [reflexivity|apply IH].
Qed.

Lemma find_from_bound (s : string) (c : ascii) (pos i : nat) :
  Str.find_from s c pos = Some i -> (i < String.length s)%nat.
Proof.
  unfold Str.find_from, Str.find_char.
  destruct (_ <? _)%nat eqn:Hpos; [discriminate|].
  apply Nat.ltb_ge in Hpos.
  destruct (Str.find_first_of (Str.drop pos s) _) as [j|] eqn:Hj;
    cbn [option_map]; [|discriminate].
  apply find_first_of_bound in Hj. rewrite length_drop in Hj.
  intros [= <-]. lia.
Qed.

(** [colon + 1] is never beyond the end of [_uri]: the [substr] of
    [open] does not throw. *)
Lemma resolve_total (uri : string) : resolve uri <> None.
Proof.
  unfold resolve. cbv zeta.
  destruct (Str.find_from uri ":" _) as [colon|] eqn:Hfind; [|discriminate].
  apply find_from_bound in Hfind. unfold Str.substr_from.
  replace (_ <? _)%nat with false by (symmetry; apply Nat.ltb_ge; lia).
  now destruct (Str.find_char _ _).
Qed.

(** ** Opening *)

Arguments do_recv : simpl never.

(** The calls appended to [base] in a list of calls. *)
Ltac events l base :=
  match l with
  | base => constr:(@nil syscall)
  | (?a ++ [?c])%list =>
      let p := events a base in constr:((p ++ [c])%list)
  end.

Ltac open_step H :=
  match type of H with
  | context [if ?b then _ else _] =>
      destruct b eqn:?; cbn in H; try discriminate H
  | context [match ?l with nil => _ | cons _ _ => _ end] =>
      destruct l as [|[? ?] ?] eqn:?; cbn in H; try discriminate H
  | context [match resolve ?u with _ => _ end] =>
      destruct (resolve u) as [[? ?]|] eqn:?; cbn in H; try discriminate H
  end.

(** An [open] that returns on an object that was not connected: it has
    made the calls of the set-up, sent [eval] on the new descriptor, and
    the rest is one [do_recv] with the default argument. *)
Lemma open_returns apple garbage_default this w this1 w1 :
  connected this = false ->
  open apple garbage_default this w = (Returns tt, this1, w1) ->
  exists host port fd setup w_sent msg,
    resolve (_uri this) = Some (host, port) /\
    forallb is_setup setup = true /\
    calls w_sent = (calls w ++ setup ++ [sys_send fd eval])%list /\
    do_recv garbage_default (set_sockfd fd this) w_sent =
      (Returns msg, this1, w1).
Proof.
  intros Hc H. unfold open in H. rewrite Hc in H.
  unfold bind, call, setsockopt_or_complain, fprintf_stderr, assign_sockfd,
    bind, call, throw, ret in H.
  repeat open_step H.
  all: match type of H with
       | context [do_recv _ ?s ?w] =>
           destruct (do_recv garbage_default s w) as [[[msg| |] s2] w2] eqn:Hrecv;
           try discriminate H
       end.
  all: injection H as <- <-.
  all: do 6 eexists; split; [reflexivity|].
  all: split; [|split; [|exact Hrecv]].
  all: match goal with
       | |- calls _ = _ =>
           cbn;
           match goal with
           | |- (?a ++ [_])%list = (?base ++ ?s ++ [_])%list =>
               let p := events a base in
               let p' := eval cbn in p in
               unify s p'
           end;
           repeat rewrite <- app_assoc; reflexivity
       | _ => idtac
       end.
  all: reflexivity.
Qed.

(** ** The descriptor of a session *)

Lemma close_sockfd_held this w o this' w' :
  close this w = (o, this', w') -> sockfd_held this' w'.
Proof.
  unfold close, bind. destruct (connected this); cbn;
    intros H; injection H as <- <- <-; intros Hpos; cbn in Hpos; lia.
Qed.

Lemma do_send_sockfd_held str this w o this' w' :
  sockfd_held this w ->
  do_send str this w = (o, this', w') -> sockfd_held this' w'.
Proof.
  intros Hinv. unfold do_send, bind, call, throw, ret.
  destruct (negb (connected this)).
  - intros H; injection H as <- <- <-. exact Hinv.
  - destruct (answers w) as [|[rc errno] rest]; cbn.
    + intros H; injection H as <- <- <-. exact Hinv.
    + destruct (rc <? 0); intros H; injection H as <- <- <-; exact Hinv.
Qed.

Lemma do_recv_sockfd_held garbage this w o this' w' :
  sockfd_held this w ->
  do_recv garbage this w = (o, this', w') -> sockfd_held this' w'.
Proof.
  intros Hinv. unfold do_recv, throw.
  destruct (negb (connected this)).
  - intros H; injection H as <- <- <-. exact Hinv.
  - intros H.
    destruct (do_recv_loop_frame _ _ _ _ _ _ _ _ _ H) as [[-> Ho]|(_ & -> & _)].
    + destruct (do_recv_loop_os _ _ _ _ _ _ _ _ _ H) as (_ & _ & Hfds).
      unfold sockfd_held. rewrite (Hfds Ho). exact Hinv.
    + intros Hpos. cbn in Hpos. lia.
Qed.

Lemma open_sockfd_held apple garbage_default this w o this' w' :
  sockfd_held this w ->
  open apple garbage_default this w = (o, this', w') -> sockfd_held this' w'.
Proof.
  intros Hinv H. unfold open in H.
  unfold bind, call, setsockopt_or_complain, fprintf_stderr, assign_sockfd,
    bind, call, throw, ret in H.
  repeat open_step H.
  all: try match type of H with
       | context [do_recv _ ?s ?ws] =>
           destruct (do_recv garbage_default s ws) as [[o2 s2] w2] eqn:Hrecv;
           apply do_recv_sockfd_held in Hrecv;
           [destruct o2; injection H as <- <- <-; exact Hrecv|]
       end.
  all: try (injection H as <- <- <-).
  all: try exact Hinv.
  all: unfold sockfd_held; cbn; intros Hpos; try (now left); lia.
Qed.

Lemma serve_sockfd_held apple garbage_default r this w o this' w' :
  sockfd_held this w ->
  serve apple garbage_default r this w = (o, this', w') ->
  sockfd_held this' w'.
Proof.
  intros Hinv. destruct r as [| |str|garbage]; cbn [serve].
  - now apply open_sockfd_held.
  - now apply close_sockfd_held.
  - now apply do_send_sockfd_held.
  - unfold bind, ret.
    destruct (do_recv garbage this w) as [[o2 s2] w2] eqn:Hrecv.
    apply do_recv_sockfd_held in Hrecv; [|exact Hinv].
    destruct o2; intros H; injection H as <- <- <-; exact Hrecv.
Qed.

Lemma run_sockfd_held apple garbage_default reqs :
  forall this w,
    sockfd_held this w ->
    sockfd_held (fst (run apple garbage_default reqs this w))
                (snd (run apple garbage_default reqs this w)).
Proof.
  induction reqs as [|r more IH]; intros this w Hinv; [exact Hinv|].
  cbn [run].
  destruct (serve apple garbage_default r this w) as [[o this'] w'] eqn:Hs.
  apply IH. exact (serve_sockfd_held _ _ _ _ _ _ _ _ Hinv Hs).
Qed.

Lemma constructor_sockfd uri this :
  CogSimpleStorage uri = inr this -> _sockfd this = -1.
Proof.
  unfold CogSimpleStorage, init.
  destruct (negb _); [discriminate|]. now intros [= <-].
Qed.

(** C6.  In every state a session reaches from its construction by
    [open], [close], [do_send] and [do_recv], whatever the operating
    system answers, [connected] is true exactly when the object holds a
    valid positive descriptor.  The value the constructor stores (-1) and
    the one [do_recv] stores when the peer has closed (0) are different,
    and [connected] is false on both. *)
Theorem connected_iff_holds_descriptor (apple garbage_default : bool)
    (uri : string) (this0 : Session) (w0 : OS) (reqs : list request) :
  CogSimpleStorage uri = inr this0 ->
  (let this := fst (run apple garbage_default reqs this0 w0) in
   let w := snd (run apple garbage_default reqs this0 w0) in
   connected this = true <-> holds_descriptor this w) /\
  (_sockfd this0 = -1 /\ connected this0 = false) /\
  (forall garbage this w this' w',
      do_recv garbage this w = (Throws Unexpectedly_closed, this', w') ->
      _sockfd this' = 0 /\ connected this' = false /\
      _sockfd this' <> _sockfd this0).
Proof.
  intros Hnew. pose proof (constructor_sockfd _ _ Hnew) as Hfd.
  split; [|split].
  - cbv zeta.
    assert (Hinv : sockfd_held this0 w0).
    { intros Hpos. rewrite Hfd in Hpos. lia. }
    apply (run_sockfd_held apple garbage_default reqs) in Hinv.
    unfold holds_descriptor, connected. split.
    + intros H. apply Z.ltb_lt in H. split; [exact H|now apply Hinv].
    + intros [H _]. now apply Z.ltb_lt.
  - split; [exact Hfd|]. unfold connected. now rewrite Hfd.
  - intros garbage this w this' w' H. unfold do_recv, throw in H.
    destruct (negb (connected this)); [discriminate H|].
    apply do_recv_loop_frame in H.
    destruct H as [[_ Ho]|(_ & -> & _)]; [congruence|].
    rewrite Hfd. cbn. repeat split; lia.
Qed.

Lemma connected_iff_holds_descriptor_witness :
  let this0 := {| _uri := "cog://localhost/my-space"; _sockfd := -1 |} in
  let w0 := mkOS [] answers_ok [recv_data ("opencog> " ++ nl); recv_data ""] [] in
  let reqs := [req_open; req_recv false] in
  (let this := fst (run false false reqs this0 w0) in
   let w := snd (run false false reqs this0 w0) in
   connected this = true <-> holds_descriptor this w) /\
  (_sockfd this0 = -1 /\ connected this0 = false) /\
  (forall garbage this w this' w',
      do_recv garbage this w = (Throws Unexpectedly_closed, this', w') ->
      _sockfd this' = 0 /\ connected this' = false /\
      _sockfd this' <> _sockfd this0).
Proof.
  apply (connected_iff_holds_descriptor false false "cog://localhost/my-space").
  reflexivity.
Defined.

(** ** The handshake *)

Lemma handshakes_app (a b : list syscall) :
  handshakes (a ++ b) = (handshakes a + handshakes b)%nat.
Proof. unfold handshakes. now rewrite filter_app, List.length_app. Qed.

Lemma handshakes_none (p : syscall -> bool) (l : list syscall) :
  (forall c, p c = true -> is_handshake c = false) ->
  forallb p l = true -> handshakes l = 0%nat.
Proof.
  intros Hp. unfold handshakes.
  induction l as [|c l IH]; cbn; [reflexivity|].
  intros H. apply andb_true_iff in H. destruct H as [Hc Hl].
  rewrite (Hp c Hc). now apply IH.
Qed.

Lemma do_recv_returns garbage this w msg this' w' :
  do_recv garbage this w = (Returns msg, this', w') ->
  connected this = true /\ this' = this /\
  exists made, calls w' = (calls w ++ made)%list /\
               forallb recv_or_close made = true.
Proof.
  unfold do_recv, throw. destruct (connected this); [|discriminate].
  cbn [negb]. intros H. split; [reflexivity|].
  destruct (do_recv_loop_frame _ _ _ _ _ _ _ _ _ H) as [[-> _]|[Ho _]];
    [|discriminate Ho].
  split; [reflexivity|].
  now destruct (do_recv_loop_os _ _ _ _ _ _ _ _ _ H) as (_ & Hmade & _).
Qed.

(** C5.  On a connected object [open] returns at once: no system call,
    nothing changed.  An [open] that returns on an object that was not
    connected leaves it connected, so a second [open] right after it
    changes nothing, and the two together have sent the handshake
    once. *)
Theorem open_idempotent (apple garbage_default : bool) (this : Session)
    (w : OS) :
  (connected this = true ->
   open apple garbage_default this w = (Returns tt, this, w)) /\
  (forall this1 w1,
      connected this = false ->
      open apple garbage_default this w = (Returns tt, this1, w1) ->
      connected this1 = true /\
      open apple garbage_default this1 w1 = (Returns tt, this1, w1) /\
      run apple garbage_default [req_open; req_open] this w = (this1, w1) /\
      handshakes (calls w1) = S (handshakes (calls w))).
Proof.
  split.
  - intros Hc. unfold open. now rewrite Hc.
  - intros this1 w1 Hc Hopen.
    destruct (open_returns _ _ _ _ _ _ Hc Hopen)
      as (host & port & fd & setup & w_sent & msg & _ & Hsetup & Hsent & Hrecv).
    destruct (do_recv_returns _ _ _ _ _ _ Hrecv)
      as (Hc1 & -> & made & Hmade & Hrc).
    assert (Hagain : open apple garbage_default (set_sockfd fd this) w1 =
                     (Returns tt, set_sockfd fd this, w1)).
    { unfold open. now rewrite Hc1. }
    split; [exact Hc1|]. split; [exact Hagain|]. split.
    + cbn [run serve]. now rewrite Hopen, Hagain.
    + rewrite Hmade, Hsent. rewrite !handshakes_app.
      assert (Hs : handshakes setup = 0%nat)
        by (apply (handshakes_none is_setup); [now intros []|exact Hsetup]).
      assert (Hm : handshakes made = 0%nat)
        by (apply (handshakes_none recv_or_close); [now intros []|exact Hrc]).
      rewrite Hs, Hm.
      unfold handshakes. cbn [filter is_handshake].
      rewrite String.eqb_refl. cbn. lia.
Qed.

Lemma open_idempotent_witness :
  let this := {| _uri := "cog://localhost/my-space"; _sockfd := -1 |} in
  let w := mkOS [] answers_ok [recv_data ("opencog> " ++ nl)] [] in
  let this1 := set_sockfd 3 this in
  let w1 := snd (open false false this w) in
  connected this1 = true /\
  open false false this1 w1 = (Returns tt, this1, w1) /\
  run false false [req_open; req_open] this w = (this1, w1) /\
  handshakes (calls w1) = S (handshakes (calls w)).
Proof.
  apply (proj2 (open_idempotent false false
                  {| _uri := "cog://localhost/my-space"; _sockfd := -1 |}
                  (mkOS [] answers_ok [recv_data ("opencog> " ++ nl)] [])));
    reflexivity.
Defined.

(** C4.  Every [open] that returns on an object that was not connected
    has sent "sexpr" and a newline, once, and has then called
    [do_recv()] once, with the default argument, which is [false]: the
    flag is not set.  On a server that answers the handshake with its
    prompt and then waits, the prompt does not end the [do_recv] of
    [open], which asks [recv] again and stays there; a [do_recv] with
    the flag set returns after the prompt. *)
Theorem open_handshake_receives_unflagged :
  (forall apple this w this1 w1,
      connected this = false ->
      open apple do_recv_default_garbage this w = (Returns tt, this1, w1) ->
      exists host port fd setup w_sent msg,
        resolve (_uri this) = Some (host, port) /\
        forallb is_setup setup = true /\
        calls w_sent =
          (calls w ++ setup ++ [sys_send fd ("sexpr" ++ nl)])%list /\
        do_recv false (set_sockfd fd this) w_sent = (Returns msg, this1, w1)) /\
  (let this := {| _uri := "cog://localhost/my-space"; _sockfd := -1 |} in
   let w := mkOS [] answers_ok [recv_data prompt] [] in
   let setup := [sys_getaddrinfo "localhost" "17001"; sys_socket;
                 sys_connect 3; sys_setsockopt 3 TCP_NODELAY;
                 sys_setsockopt 3 TCP_QUICKACK] in
   open false do_recv_default_garbage this w =
     (Hangs, set_sockfd 3 this,
      mkOS [3] [] []
        (setup ++ [sys_send 3 ("sexpr" ++ nl); sys_recv 3 4096;
                   sys_recv 3 4096])) /\
   open false true this w =
     (Returns tt, set_sockfd 3 this,
      mkOS [3] [] []
        (setup ++ [sys_send 3 ("sexpr" ++ nl); sys_recv 3 4096]))).
Proof.
  split; [|split; reflexivity].
  intros apple this w this1 w1 Hc Hopen.
  exact (open_returns _ _ _ _ _ _ Hc Hopen).
Qed.

Lemma open_handshake_receives_unflagged_witness :
  let this := {| _uri := "cog://localhost/my-space"; _sockfd := -1 |} in
  let w := mkOS [] answers_ok [recv_data (prompt ++ nl)] [] in
  exists host port fd setup w_sent msg,
    resolve (_uri this) = Some (host, port) /\
    forallb is_setup setup = true /\
    calls w_sent = (calls w ++ setup ++ [sys_send fd ("sexpr" ++ nl)])%list /\
    do_recv false (set_sockfd fd this) w_sent =
      (Returns msg, set_sockfd 3 this, snd (open false false this w)).
Proof.
  apply (proj1 open_handshake_receives_unflagged false
           {| _uri := "cog://localhost/my-space"; _sockfd := -1 |}
           (mkOS [] answers_ok [recv_data (prompt ++ nl)] []));
    reflexivity.
Defined.

(** ** The identifier of a session *)

Lemma constructor_cog (rest : string) :
  CogSimpleStorage ("cog://" ++ rest) =
  inr {| _uri := "cog://" ++ Str.c_str rest; _sockfd := -1 |}.
Proof. reflexivity. Qed.

Lemma avoids_c_str (set s : string) :
  avoids set s = true -> avoids set (Str.c_str s) = true.
Proof.
  induction s as [|c r IH]; cbn; [reflexivity|].
  destruct (Ascii.eqb c Str.NUL); [reflexivity|].
  cbn. destruct (Str.mem c set); cbn; [discriminate|exact IH].
Qed.

(** C8, as the claim has it, fails on the namespace: identifiers that
    differ in nothing but the namespace resolve to the same host and
    port, and that is all [open] works out of the identifier.  Nothing
    it yields is, or determines, the namespace. *)
Lemma resolve_forgets_namespace :
  resolve "cog://localhost:17001/a" = Some ("localhost", "17001") /\
  resolve "cog://localhost:17001/b" = Some ("localhost", "17001") /\
  ~ (exists namespace : option (string * string) -> string,
        forall n, namespace (resolve ("cog://localhost:17001/" ++ n)) = n).
Proof.
  split; [reflexivity|]. split; [reflexivity|].
  intros [namespace H].
  pose proof (H "a") as Ha. pose proof (H "b") as Hb.
  change (resolve ("cog://localhost:17001/" ++ "a"))
    with (Some ("localhost", "17001")) in Ha.
  change (resolve ("cog://localhost:17001/" ++ "b"))
    with (Some ("localhost", "17001")) in Hb.
  rewrite Ha in Hb. discriminate Hb.
Qed.

(** C8, amended.  For an identifier [cog://h:p/n] where [h] is a text
    without [:] and [/] and [p] a text without [/], the constructor
    accepts the identifier, [open] works out the host [h] and the port
    [p], whatever [n] is, and hands them to [getaddrinfo]. *)
Theorem resolve_host_and_port (h p n : string) :
  host_ok h = true ->
  port_ok p = true ->
  exists this,
    CogSimpleStorage ("cog://" ++ h ++ ":" ++ p ++ "/" ++ n) = inr this /\
    resolve (_uri this) = Some (h, p) /\
    (forall apple garbage_default w,
        answers w = [] ->
        open apple garbage_default this w =
          (Hangs, this, log (sys_getaddrinfo h p) w)).
Proof.
  intros Hh Hp. rewrite constructor_cog. eexists. split; [reflexivity|].
  cbn [_uri].
  assert (Hres : resolve ("cog://" ++ Str.c_str (h ++ ":" ++ p ++ "/" ++ n))
                 = Some (h, p)).
  { pose proof Hh as Hh'. pose proof Hp as Hp'.
    apply andb_true_iff in Hh'. destruct Hh' as [Hth _].
    apply andb_true_iff in Hp'. destruct Hp' as [Htp _].
    rewrite (c_str_app _ _ Hth).
    change (Str.c_str (":" ++ p ++ "/" ++ n))
      with (":" ++ Str.c_str (p ++ "/" ++ n)).
    rewrite (c_str_app _ _ Htp).
    change (Str.c_str ("/" ++ n)) with ("/" ++ Str.c_str n).
    now apply resolve_with_port. }
  split; [exact Hres|].
  intros apple garbage_default w Hw.
  unfold open. cbn [connected _sockfd _uri Z.ltb Z.compare].
  rewrite Hres. unfold bind, call. now rewrite Hw.
Qed.

Lemma resolve_host_and_port_witness :
  exists this,
    CogSimpleStorage ("cog://" ++ "localhost" ++ ":" ++ "17001" ++ "/"
                      ++ "my-space") = inr this /\
    resolve (_uri this) = Some ("localhost", "17001") /\
    (forall apple garbage_default w,
        answers w = [] ->
        open apple garbage_default this w =
          (Hangs, this, log (sys_getaddrinfo "localhost" "17001") w)).
Proof.
  apply (resolve_host_and_port "localhost" "17001" "my-space"); reflexivity.
Defined.

(** C9.  When the name of the atomspace holds a [:], the search for the
    [:] of the port finds that one, and the port is what stands behind
    it instead of 17001.  When the name holds no [:] (and the host is a
    text without [:] and [/]), the port is 17001. *)
Theorem resolve_default_port :
  (exists this,
      CogSimpleStorage "cog://localhost/my:space" = inr this /\
      resolve (_uri this) = Some ("localhost", "space")) /\
  (forall h n,
      host_ok h = true ->
      avoids ":" n = true ->
      exists this,
        CogSimpleStorage ("cog://" ++ h ++ "/" ++ n) = inr this /\
        resolve (_uri this) = Some (h, DEFAULT_COGSERVER_PORT)).
Proof.
  split.
  - eexists. split; reflexivity.
  - intros h n Hh Hn. rewrite constructor_cog. eexists.
    split; [reflexivity|]. cbn [_uri].
    pose proof Hh as Hh'. apply andb_true_iff in Hh'. destruct Hh' as [Hth _].
    rewrite (c_str_app _ _ Hth).
    change (Str.c_str ("/" ++ n)) with ("/" ++ Str.c_str n).
    apply resolve_without_port; [exact Hh|now apply avoids_c_str].
Qed.

Lemma resolve_default_port_witness :
  exists this,
    CogSimpleStorage ("cog://" ++ "localhost" ++ "/" ++ "my-space") = inr this /\
    resolve (_uri this) = Some ("localhost", DEFAULT_COGSERVER_PORT).
Proof.
  apply (proj2 resolve_default_port "localhost" "my-space"); reflexivity.
Defined.

(** * More of the code *)

(** ** The constructor *)

Lemma code_eq (x y : ascii) : Str.code x = Str.code y -> x = y.
Proof.
  unfold Str.code. intros H. apply Nat2Z.inj in H.
  rewrite <- (ascii_nat_embedding x), <- (ascii_nat_embedding y).
  now rewrite H.
Qed.

Lemma strncmp_prefix (b : string) :
  Str.is_text b = true ->
  forall a,
    (Str.strncmp a b (String.length b) =? 0) = String.prefix b a.
Proof.
  induction b as [|y b IH]; intros Htext a.
  - now destruct a.
  - cbn [Str.is_text] in Htext. apply andb_true_iff in Htext.
    destruct Htext as [Hy Hb]. apply negb_true_iff in Hy.
    cbn [String.length Str.strncmp String.prefix].
    destruct a as [|x a].
    + apply Z.eqb_neq. intros H.
      assert (Hc : Str.code y = Str.code Str.NUL) by (cbn; lia).
      apply code_eq in Hc. subst y. discriminate Hy.
    + cbn [String.prefix]. destruct (Ascii.eqb_spec x y) as [->|Hxy].
      * destruct (ascii_dec y y) as [_|Hn]; [apply (IH Hb)|congruence].
      * destruct (ascii_dec y x) as [->|_]; [congruence|].
        apply Z.eqb_neq. intros H. apply Hxy, code_eq. lia.
Qed.

(** X1.  The constructor reads the identifier as a C string.  When that
    starts with the six characters of the scheme the object exists, keeps
    the C string and is not connected; otherwise the constructor throws
    "Unknown URI" with the C string. *)
Theorem constructor_accepts_scheme (uri : string) :
  CogSimpleStorage uri =
  if String.prefix "cog://" (Str.c_str uri)
  then inr {| _uri := Str.c_str uri; _sockfd := -1 |}
  else inl (Unknown_URI (Str.c_str uri)).
Proof.
  unfold CogSimpleStorage, init.
  change URIX_LEN with (String.length "cog://").
  rewrite (strncmp_prefix "cog://" eq_refl).
  now destruct (String.prefix "cog://" (Str.c_str uri)).
Qed.

(** ** The host and the port of any identifier *)

Lemma is_text_c_str (s : string) : Str.is_text (Str.c_str s) = true.
Proof.
  induction s as [|c r IH]; cbn; [reflexivity|].
  destruct (Ascii.eqb c Str.NUL) eqn:E; cbn; [reflexivity|].
  now rewrite E.
Qed.

Lemma is_text_drop (n : nat) (s : string) :
  Str.is_text s = true -> Str.is_text (Str.drop n s) = true.
Proof.
  revert s. induction n as [|n IH]; intros s; [now destruct s|].
  destruct s as [|c r]; cbn; [reflexivity|].
  intros H. apply andb_true_iff in H. now apply IH.
Qed.

Lemma is_text_take (n : nat) (s : string) :
  Str.is_text s = true -> Str.is_text (Str.take n s) = true.
Proof.
  revert s. induction n as [|n IH]; intros s; [now destruct s|].
  destruct s as [|c r]; cbn; [reflexivity|].
  intros H. apply andb_true_iff in H. destruct H as [Hc Hr].
  now rewrite Hc, (IH r Hr).
Qed.

(** What [find_first_of] tells about the characters before the place it
    returns, or about all of them when it returns [npos]. *)
Lemma avoids_before_find (set s : string) :
  match Str.find_first_of s set with
  | Some i => avoids set (Str.take i s) = true
  | None => avoids set s = true
  end.
Proof.
  induction s as [|c r IH]; [reflexivity|].
  cbn [Str.find_first_of].
  destruct (Str.mem c set) eqn:Hc; [reflexivity|].
  destruct (Str.find_first_of r set) as [i|];
    cbn [option_map Str.take avoids]; now rewrite Hc, IH.
Qed.

(** X2.  Whatever the identifier, [open] gets a host and a port out of
    it (its [substr] never throws); the host is a text without [:] and
    [/], and the port holds no [/]. *)
Theorem resolve_shape (uri : string) :
  exists host port,
    resolve uri = Some (host, port) /\
    host_ok host = true /\
    avoids "/" port = true.
Proof.
  unfold resolve. cbv zeta.
  set (rest := Str.drop URIX_LEN (Str.c_str uri)).
  assert (Hrest : Str.is_text rest = true)
    by apply is_text_drop, is_text_c_str.
  set (host := match Str.find_first_of rest ":/" with
               | Some slash => Str.substr0 rest slash
               | None => rest
               end).
  assert (Hhost : host_ok host = true).
  { unfold host, host_ok, Str.substr0.
    pose proof (avoids_before_find ":/" rest) as Hav.
    destruct (Str.find_first_of rest ":/") as [i|].
    - now rewrite (is_text_take _ _ Hrest), Hav.
    - now rewrite Hrest, Hav. }
  destruct (Str.find_from uri ":" _) as [colon|] eqn:Hfind.
  - apply find_from_bound in Hfind. unfold Str.substr_from.
    replace (_ <? _)%nat with false by (symmetry; apply Nat.ltb_ge; lia).
    unfold Str.find_char, Str.substr0.
    pose proof (avoids_before_find "/" (Str.drop (colon + 1) uri)) as Hav.
    destruct (Str.find_first_of _ "/") as [slash|];
      eexists; eexists; (split; [reflexivity|]); now split.
  - exists host, DEFAULT_COGSERVER_PORT. now split.
Qed.

Lemma app_empty_r (s : string) : s ++ "" = s.
Proof. induction s as [|c r IH]; cbn; [reflexivity|now rewrite IH]. Qed.

Lemma resolve_host_alone (h : string) :
  host_ok h = true ->
  let host := Str.drop URIX_LEN (Str.c_str ("cog://" ++ h)) in
  match Str.find_first_of host ":/" with
  | Some slash => Str.substr0 host slash
  | None => host
  end = h.
Proof.
  intros Hh. apply andb_true_iff in Hh. destruct Hh as [Htext Hav].
  cbn -[Str.find_first_of]. rewrite (StrFacts.c_str_text _ Htext).
  now rewrite (find_first_of_avoids _ _ Hav).
Qed.

(** X3.  An identifier that ends behind the host, [cog://h], gives the
    host [h] and the port 17001; one that ends behind the port,
    [cog://h:p], gives [h] and [p].  ([h] a text without [:] and [/],
    [p] without [/].) *)
Theorem resolve_without_namespace (h p : string) :
  host_ok h = true ->
  avoids "/" p = true ->
  resolve ("cog://" ++ h) = Some (h, DEFAULT_COGSERVER_PORT) /\
  resolve ("cog://" ++ h ++ ":" ++ p) = Some (h, p).
Proof.
  intros Hh Hp. split.
  - rewrite (resolve_unfold _ h) by now apply resolve_host_alone.
    unfold Str.find_from.
    replace (_ <? _)%nat with false
      by (symmetry; apply Nat.ltb_ge; cbn; lia).
    replace (Str.drop (URIX_LEN + String.length h) ("cog://" ++ h)) with ""
      by (cbn; clear; induction h; cbn; auto).
    reflexivity.
  - change ("cog://" ++ h ++ ":" ++ p) with ("cog://" ++ h ++ String ":" p).
    rewrite (resolve_unfold _ h)
      by (apply resolve_host; [assumption|reflexivity|discriminate]).
    unfold Str.find_from, Str.substr_from.
    rewrite length_behind_scheme, drop_behind_host.
    replace (_ <? _)%nat with false by (symmetry; apply Nat.ltb_ge; lia).
    cbn [Str.find_char Str.find_first_of Str.mem orb option_map].
    rewrite Ascii.eqb_refl. cbn [orb option_map].
    rewrite Nat.add_0_r.
    replace (_ <? _)%nat with false
      by (symmetry; apply Nat.ltb_ge; cbn [String.length]; lia).
    rewrite drop_behind_sep. unfold Str.find_char.
    now rewrite (find_first_of_avoids _ _ Hp).
Qed.

Lemma resolve_without_namespace_witness :
  resolve ("cog://" ++ "localhost") = Some ("localhost", DEFAULT_COGSERVER_PORT) /\
  resolve ("cog://" ++ "localhost" ++ ":" ++ "18001") =
    Some ("localhost", "18001").
Proof.
  apply (resolve_without_namespace "localhost" "18001"); reflexivity.
Defined.

(** ** Messages of several chunks *)

Lemma string_app_assoc (a b c : string) : (a ++ b) ++ c = a ++ b ++ c.
Proof. induction a as [|x a IH]; cbn; [reflexivity|now rewrite IH]. Qed.

Lemma is_text_app (a b : string) :
  Str.is_text (a ++ b) = Str.is_text a && Str.is_text b.
Proof.
  induction a as [|x a IH]; cbn; [reflexivity|].
  now rewrite IH, andb_assoc.
Qed.

Lemma newline_terminated_app (a b : string) :
  newline_terminated b = true -> newline_terminated (a ++ b) = true.
Proof.
  intros Hb. pose proof (newline_terminated_not_empty _ Hb) as Hne.
  unfold newline_terminated in *.
  induction a as [|x a IH]; [exact Hb|].
  cbn [append String.length]. rewrite Nat.sub_succ, Nat.sub_0_r.
  destruct (String.length (a ++ b)) as [|k] eqn:Hlen.
  - destruct a; [destruct b; [congruence|discriminate]|discriminate].
  - cbn [Str.char_at]. now rewrite Nat.sub_succ, Nat.sub_0_r in IH.
Qed.

Lemma do_recv_loop_message before :
  forall garbage rb first_time last rest this w,
    keeps_reading garbage first_time before = true ->
    newline_terminated last = true ->
    (first_time = true -> rb = "") ->
    exists w',
      do_recv_loop garbage rb first_time
        (map recv_data before ++ recv_data last :: rest)%list this w =
      (Returns (rb ++ message (before ++ [last])), this, w') /\
      incoming w' = rest /\
      calls w' =
        (calls w ++ repeat (sys_recv (_sockfd this) 4096)
                      (S (List.length before)))%list.
Proof.
  induction before as [|buf more IH];
    intros garbage rb first_time last rest this w Hk Hnl Hrb.
  - cbn [map app List.length message].
    rewrite (do_recv_loop_newline _ _ _ _ _ _ _ Hnl).
    rewrite (newline_terminated_not_idle _ Hnl), app_empty_r.
    exists (set_incoming rest (log (sys_recv (_sockfd this) 4096) w)).
    split; [|split; reflexivity].
    destruct first_time; [|reflexivity].
    rewrite (Hrb eq_refl). now destruct (true && _).
  - cbn [keeps_reading] in Hk. cbn [map app do_recv_loop message List.length].
    apply andb_true_iff in Hk. destruct Hk as [Hlen Hk].
    apply negb_true_iff in Hlen. rewrite Hlen.
    destruct (idle buf) eqn:Hidle; unfold idle in Hidle; rewrite Hidle.
    + destruct (IH garbage rb first_time last rest this
                  (set_incoming (map recv_data more ++ recv_data last :: rest)%list
                     (log (sys_recv (_sockfd this) 4096) w)) Hk Hnl Hrb)
        as (w' & Heq & Hi & Hc).
      exists w'. rewrite Heq. split; [reflexivity|]. split; [exact Hi|].
      rewrite Hc. cbn. now rewrite <- app_assoc.
    + apply andb_true_iff in Hk. destruct Hk as [Hk Hmore].
      apply andb_true_iff in Hk. destruct Hk as [Hfast Hnot].
      apply negb_true_iff in Hfast, Hnot.
      unfold newline_terminated in Hfast, Hnot. rewrite Hfast, Hnot.
      destruct (IH garbage (rb ++ Str.c_str buf) false last rest this
                  (set_incoming (map recv_data more ++ recv_data last :: rest)%list
                     (log (sys_recv (_sockfd this) 4096) w)) Hmore Hnl)
        as (w' & Heq & Hi & Hc); [discriminate|].
      exists w'. rewrite Heq, string_app_assoc.
      split; [reflexivity|]. split; [exact Hi|].
      rewrite Hc. cbn. now rewrite <- app_assoc.
Qed.

(** X4.  A message that comes in several chunks: on a connected
    session, when the answers of [recv] are chunks on which the loop
    goes on reading and then a chunk that ends in a newline, [do_recv]
    returns the chunks put end to end (each read as a C string, the idle
    ones left out), has called [recv] once for each chunk, and leaves
    what follows in the queue. *)
Theorem do_recv_assembles_chunks (garbage : bool) (this : Session) (w : OS)
    (before : list string) (last : string) (rest : list recv_answer) :
  connected this = true ->
  keeps_reading garbage true before = true ->
  newline_terminated last = true ->
  incoming w = (map recv_data before ++ recv_data last :: rest)%list ->
  exists w',
    do_recv garbage this w =
      (Returns (message (before ++ [last])), this, w') /\
    incoming w' = rest /\
    calls w' =
      (calls w ++ repeat (sys_recv (_sockfd this) 4096)
                    (S (List.length before)))%list.
Proof.
  intros Hc Hk Hnl Hin.
  rewrite (do_recv_connected _ _ _ Hc), Hin.
  exact (do_recv_loop_message before garbage "" true last rest this w
           Hk Hnl (fun _ => eq_refl)).
Qed.

Lemma do_recv_assembles_chunks_witness :
  exists w',
    do_recv false session3
      (mkOS [3] [] [recv_data "(Concept "; recv_data (String Str.SYN "");
                    recv_data ("foo)" ++ nl); recv_data "more"] []) =
      (Returns ("(Concept foo)" ++ nl), session3, w') /\
    incoming w' = [recv_data "more"] /\
    calls w' = repeat (sys_recv 3 4096) 3.
Proof.
  apply (do_recv_assembles_chunks false session3
           (mkOS [3] [] [recv_data "(Concept "; recv_data (String Str.SYN "");
                         recv_data ("foo)" ++ nl); recv_data "more"] [])
           ["(Concept "; String Str.SYN ""] ("foo)" ++ nl)
           [recv_data "more"]); reflexivity.
Defined.

(** ** What a returned message looks like *)

Lemma do_recv_loop_text pending :
  forall garbage rb first_time this w msg this' w',
    Str.is_text rb = true ->
    do_recv_loop garbage rb first_time pending this w =
      (Returns msg, this', w') ->
    Str.is_text msg = true.
Proof.
  induction pending as [|[errno|buf] rest IH];
    intros garbage rb first_time this w msg this' w' Hrb H;
    [discriminate H..|].
  cbn [do_recv_loop] in H.
  destruct (Z.of_nat (String.length buf) =? 0); [discriminate H|].
  destruct (_ && Ascii.eqb Str.SYN _); [now apply IH in H|].
  destruct (first_time && _ && _).
  { injection H as <- _ _. apply is_text_c_str. }
  assert (Hrb' : Str.is_text (rb ++ Str.c_str buf) = true)
    by now rewrite is_text_app, Hrb, is_text_c_str.
  destruct (Ascii.eqb Str.LF _); [|now apply IH in H].
  now injection H as <- _ _.
Qed.

(** X5.  No message that [do_recv] returns holds a NUL: what stands
    behind a NUL in a chunk is lost. *)
Theorem do_recv_message_is_text (garbage : bool) (this : Session) (w : OS)
    (msg : string) (this' : Session) (w' : OS) :
  do_recv garbage this w = (Returns msg, this', w') ->
  Str.is_text msg = true.
Proof.
  unfold do_recv, throw.
  destruct (negb (connected this)); [discriminate|].
  now apply do_recv_loop_text.
Qed.

Lemma do_recv_message_is_text_witness :
  Str.is_text "pong" = true.
Proof.
  apply (do_recv_message_is_text false session3
           (mkOS [3] [] [recv_data ("pong" ++ String Str.NUL ("junk" ++ nl))] [])
           "pong" session3
           (mkOS [3] [] [] [sys_recv 3 4096])).
  reflexivity.
Defined.

Lemma do_recv_loop_ends_in_newline pending :
  forall rb first_time this w msg this' w',
    forallb text_answer pending = true ->
    do_recv_loop false rb first_time pending this w =
      (Returns msg, this', w') ->
    newline_terminated msg = true.
Proof.
  induction pending as [|[errno|buf] rest IH];
    intros rb first_time this w msg this' w' Htext H;
    [discriminate H..|].
  cbn [forallb text_answer] in Htext. apply andb_true_iff in Htext.
  destruct Htext as [Hbuf Hrest].
  cbn [do_recv_loop] in H. rewrite (StrFacts.c_str_text _ Hbuf) in H.
  destruct (Z.of_nat (String.length buf) =? 0); [discriminate H|].
  destruct (_ && Ascii.eqb Str.SYN _); [now apply IH in H|].
  rewrite orb_false_r in H.
  destruct (Ascii.eqb Str.LF _) eqn:Hnl.
  - assert (Hboth : msg = buf \/ msg = rb ++ buf).
    { destruct (first_time && _ && true); injection H as <- _ _; auto. }
    destruct Hboth as [->| ->]; [exact Hnl|].
    now apply newline_terminated_app.
  - rewrite andb_false_r in H. now apply IH in H.
Qed.

(** X6.  When the peer sends no NUL, every message that [do_recv]
    returns without the greeting flag ends in a newline (and so is not
    empty). *)
Theorem do_recv_message_ends_in_newline (this : Session) (w : OS)
    (msg : string) (this' : Session) (w' : OS) :
  forallb text_answer (incoming w) = true ->
  do_recv false this w = (Returns msg, this', w') ->
  newline_terminated msg = true /\ msg <> "".
Proof.
  intros Htext H. unfold do_recv, throw in H.
  destruct (negb (connected this)); [discriminate H|].
  apply do_recv_loop_ends_in_newline in H; [|exact Htext].
  split; [exact H|now apply newline_terminated_not_empty].
Qed.

Lemma do_recv_message_ends_in_newline_witness :
  newline_terminated ("(Concept foo)" ++ nl) = true /\
  "(Concept foo)" ++ nl <> "".
Proof.
  apply (do_recv_message_ends_in_newline session3
           (mkOS [3] [] [recv_data "(Concept "; recv_data ("foo)" ++ nl)] [])
           ("(Concept foo)" ++ nl) session3
           (mkOS [3] [] [] [sys_recv 3 4096; sys_recv 3 4096]));
    reflexivity.
Defined.

(** ** What a receive does to the operating system *)

Lemma do_recv_loop_accounts pending :
  forall garbage rb first_time this w o this' w',
    do_recv_loop garbage rb first_time pending this w = (o, this', w') ->
    exists consumed,
      pending = (consumed ++ incoming w')%list /\
      calls w' =
        (calls w
         ++ repeat (sys_recv (_sockfd this) 4096)
              (List.length consumed + blocked o)
         ++ closes o (_sockfd this))%list.
Proof.
  induction pending as [|[errno|buf] rest IH];
    intros garbage rb first_time this w o this' w' H.
  - injection H as <- <- <-. now exists [].
  - injection H as <- <- <-. now exists [recv_error errno].
  - cbn [do_recv_loop] in H.
    assert (Hrec : forall rb1 ft1,
               do_recv_loop garbage rb1 ft1 rest this
                 (set_incoming rest (log (sys_recv (_sockfd this) 4096) w)) =
               (o, this', w') ->
               exists consumed,
                 recv_data buf :: rest = (consumed ++ incoming w')%list /\
                 calls w' =
                   (calls w
                    ++ repeat (sys_recv (_sockfd this) 4096)
                         (List.length consumed + blocked o)
                    ++ closes o (_sockfd this))%list).
    { intros rb1 ft1 H1. apply IH in H1.
      destruct H1 as (consumed & Hp & Hc).
      exists (recv_data buf :: consumed). split; [now rewrite Hp|].
      rewrite Hc. cbn. now rewrite <- app_assoc. }
    destruct (Z.of_nat (String.length buf) =? 0).
    { injection H as <- <- <-. exists [recv_data buf].
      split; [reflexivity|]. cbn. now rewrite <- app_assoc. }
    destruct (_ && Ascii.eqb Str.SYN _); [now apply Hrec in H|].
    destruct (first_time && _ && _).
    { injection H as <- <- <-. now exists [recv_data buf]. }
    destruct (Ascii.eqb Str.LF _); [|now apply Hrec in H].
    injection H as <- <- <-. now exists [recv_data buf].
Qed.

(** X7.  [do_recv] only reads.  Whatever comes of it, it takes a front
    part of the queue of [recv] answers and leaves the rest, it makes
    one [recv] for each answer it took (and one more when it never comes
    back), then one [close] when the peer has closed, and no other call;
    the answers of the other system calls and, unless the peer has
    closed, the descriptors are as before. *)
Theorem do_recv_only_reads (garbage : bool) (this : Session) (w : OS)
    (o : outcome string) (this' : Session) (w' : OS) :
  do_recv garbage this w = (o, this', w') ->
  answers w' = answers w /\
  (o <> Throws Unexpectedly_closed -> fds w' = fds w) /\
  exists consumed,
    incoming w = (consumed ++ incoming w')%list /\
    calls w' =
      (calls w
       ++ repeat (sys_recv (_sockfd this) 4096)
            (List.length consumed + blocked o)
       ++ closes o (_sockfd this))%list.
Proof.
  unfold do_recv, throw. destruct (negb (connected this)).
  - intros H. injection H as <- <- <-.
    split; [reflexivity|]. split; [reflexivity|].
    exists []. cbn. now rewrite app_nil_r.
  - intros H.
    destruct (do_recv_loop_os _ _ _ _ _ _ _ _ _ H) as (Ha & _ & Hf).
    split; [exact Ha|]. split; [exact Hf|].
    exact (do_recv_loop_accounts _ _ _ _ _ _ _ _ _ H).
Qed.

Lemma do_recv_only_reads_witness :
  let w := mkOS [3] [(7, 0)] [recv_data "par"; recv_data ""; recv_data "x"] [] in
  let w' := snd (do_recv false session3 w) in
  let o : outcome string := Throws Unexpectedly_closed in
  answers w' = answers w /\
  (o <> Throws Unexpectedly_closed -> fds w' = fds w) /\
  exists consumed,
    incoming w = (consumed ++ incoming w')%list /\
    calls w' =
      (calls w
       ++ repeat (sys_recv (_sockfd session3) 4096)
            (List.length consumed + blocked o)
       ++ closes o (_sockfd session3))%list.
Proof.
  apply (do_recv_only_reads false session3
           (mkOS [3] [(7, 0)] [recv_data "par"; recv_data ""; recv_data "x"] [])
           (Throws Unexpectedly_closed) (set_sockfd 0 session3)).
  reflexivity.
Defined.

(** ** What a failed [open] leaves behind *)

Lemma do_recv_loop_throws pending :
  forall garbage rb first_time this w e this' w',
    connected this = true ->
    do_recv_loop garbage rb first_time pending this w = (Throws e, this', w') ->
    left_by_do_recv e this w this' w'.
Proof.
  induction pending as [|[errno|buf] rest IH];
    intros garbage rb first_time this w e this' w' Hc H.
  - discriminate H.
  - injection H as <- <- <-. now cbn.
  - cbn [do_recv_loop] in H.
    assert (Hrec : forall rb1 ft1,
               do_recv_loop garbage rb1 ft1 rest this
                 (set_incoming rest (log (sys_recv (_sockfd this) 4096) w)) =
               (Throws e, this', w') ->
               left_by_do_recv e this w this' w').
    { intros rb1 ft1 H1. apply IH in H1; [|exact Hc].
      destruct e; cbn in H1 |- *; try tauto.
      destruct H1 as [H1 _]. congruence. }
    destruct (Z.of_nat (String.length buf) =? 0).
    { injection H as <- <- <-. now cbn. }
    destruct (_ && Ascii.eqb Str.SYN _); [now apply Hrec in H|].
    destruct (first_time && _ && _); [discriminate H|].
    destruct (Ascii.eqb Str.LF _); [discriminate H|now apply Hrec in H].
Qed.

Lemma do_recv_throws garbage this w e this' w' :
  do_recv garbage this w = (Throws e, this', w') ->
  left_by_do_recv e this w this' w'.
Proof.
  unfold do_recv, throw. destruct (connected this) eqn:Hc; cbn [negb].
  - now apply do_recv_loop_throws.
  - intros H. injection H as <- <- <-. now cbn.
Qed.

Lemma handshakes_log (c : syscall) (w : OS) :
  is_handshake c = false ->
  handshakes (calls (log c w)) = handshakes (calls w).
Proof.
  intros Hc. unfold log. cbn [calls]. rewrite handshakes_app.
  unfold handshakes at 2. cbn [filter]. rewrite Hc. cbn. lia.
Qed.

Ltac count_handshakes :=
  repeat first [ rewrite handshakes_log by reflexivity
               | progress cbn [set_answers set_fds calls] ].

Lemma open_throws apple garbage_default this w e this' w' host port :
  resolve (_uri this) = Some (host, port) ->
  open apple garbage_default this w = (Throws e, this', w') ->
  left_by_open e host this w this' w'.
Proof.
  intros Hres H. unfold open in H. rewrite Hres in H.
  unfold bind, call, setsockopt_or_complain, fprintf_stderr, assign_sockfd,
    bind, call, throw, ret in H.
  repeat open_step H.
  all: try (exfalso; lia).
  all: try match type of H with
       | context [do_recv _ ?s ?ws] =>
           destruct (do_recv garbage_default s ws) as [[[msg|e2|] s2] w2]
             eqn:Hrecv; try discriminate H;
           apply do_recv_throws in Hrecv;
           injection H as <- <- <-;
           destruct e2; cbn [left_by_do_recv] in Hrecv; try contradiction;
           destruct Hrecv as (Hconn & -> & Hw); try subst w2;
           unfold connected in Hconn; cbn [_sockfd set_sockfd] in Hconn;
           (split; [reflexivity|]); cbn [left_by_open _sockfd set_sockfd]
       end.
  all: try match goal with
       | |- ?z = 0 /\ _ => split; [lia|]; replace z with 0 by lia; reflexivity
       | Hw : fds ?w2 = _ |- 0 < _ /\ fds ?w2 = _ => split; [lia|exact Hw]
       | Hw : fds ?w2 = remove _ _ _ |- 0 = 0 /\ _ =>
           cbn [_sockfd set_sockfd] in Hw;
           match type of Hw with
           | _ = remove _ ?z _ =>
               split; [reflexivity|]; exists z; split; [lia|exact Hw]
           end
       end.
  all: injection H as <- <- <-; (split; [reflexivity|]);
       cbn [left_by_open _sockfd set_sockfd].
  all: repeat match goal with |- _ /\ _ => split end.
  all: try reflexivity.
  all: try (cbn [_sockfd set_sockfd]; lia).
  all: try (count_handshakes; reflexivity).
Qed.

Lemma open_throws_not_connected apple garbage_default this w e this' w' :
  open apple garbage_default this w = (Throws e, this', w') ->
  connected this = false.
Proof.
  unfold open. destruct (connected this); [discriminate|reflexivity].
Qed.

Lemma open_throws_resolved apple garbage_default this w e this' w' :
  open apple garbage_default this w = (Throws e, this', w') ->
  exists host port,
    resolve (_uri this) = Some (host, port) /\
    left_by_open e host this w this' w'.
Proof.
  intros H. destruct (resolve (_uri this)) as [[host port]|] eqn:Hres.
  - exists host, port. split; [reflexivity|].
    exact (open_throws _ _ _ _ _ _ _ _ _ Hres H).
  - now destruct (resolve_total (_uri this)).
Qed.

(** X8.  When [open] throws "Unknown host" or "Unable to create
    socket", the object is not connected afterwards, the process holds
    the descriptors it held before, no handshake has been sent and the
    identifier is unchanged: a later [open] starts from the same
    place. *)
Theorem open_failure_before_socket (apple garbage_default : bool)
    (this : Session) (w : OS) (e : exception) (this' : Session) (w' : OS) :
  open apple garbage_default this w = (Throws e, this', w') ->
  before_socket e = true ->
  connected this' = false /\
  fds w' = fds w /\
  handshakes (calls w') = handshakes (calls w) /\
  _uri this' = _uri this.
Proof.
  intros H He.
  pose proof (open_throws_not_connected _ _ _ _ _ _ _ H) as Hc.
  destruct (open_throws_resolved _ _ _ _ _ _ _ H)
    as (host & port & _ & Huri & Hleft).
  destruct e; try discriminate He; cbn [left_by_open] in Hleft.
  - destruct Hleft as (_ & _ & -> & Hf & Hh). now repeat split.
  - destruct Hleft as (_ & Hneg & Hf & Hh).
    repeat split; try assumption. unfold connected. lia.
Qed.

Lemma open_failure_before_socket_witness :
  let this := {| _uri := "cog://nowhere/space"; _sockfd := -1 |} in
  let w := mkOS [] [(-2, 0)] [] [] in
  connected this = false /\
  fds (log (sys_getaddrinfo "nowhere" "17001") (set_answers [] w)) = fds w /\
  handshakes (calls (log (sys_getaddrinfo "nowhere" "17001")
                       (set_answers [] w))) = handshakes (calls w) /\
  _uri this = _uri this.
Proof.
  apply (open_failure_before_socket false false
           {| _uri := "cog://nowhere/space"; _sockfd := -1 |}
           (mkOS [] [(-2, 0)] [] []) (Unknown_host "nowhere" (-2)));
    reflexivity.
Defined.

(** X9.  When [open] throws after [socket] has returned a descriptor
    ("Unable to connect", "Unable to talk to cogserver at host", or the
    "Unable to talk" of the first receive), the descriptor stays in
    [_sockfd] and stays open.  When it is positive, [connected] is true
    although the session was not set up, a later [open] returns at once
    without any system call, and [close] releases the descriptor.
    After "Unable to connect" no handshake has been sent. *)
Theorem open_failure_after_socket (apple garbage_default : bool)
    (this : Session) (w : OS) (e : exception) (this' : Session) (w' : OS) :
  open apple garbage_default this w = (Throws e, this', w') ->
  after_socket e = true ->
  0 <= _sockfd this' /\
  fds w' = _sockfd this' :: fds w /\
  (0 < _sockfd this' ->
   connected this' = true /\
   (forall w2, open apple garbage_default this' w2 = (Returns tt, this', w2)) /\
   fds (snd (close this' w')) =
     remove Z.eq_dec (_sockfd this') (fds w)) /\
  (forall h errno,
      e = Unable_to_connect h errno ->
      handshakes (calls w') = handshakes (calls w)).
Proof.
  intros H He.
  destruct (open_throws_resolved _ _ _ _ _ _ _ H)
    as (host & port & _ & Huri & Hleft).
  assert (Hfd : 0 <= _sockfd this' /\ fds w' = _sockfd this' :: fds w).
  { destruct e; try discriminate He; cbn [left_by_open] in Hleft;
      intuition lia. }
  destruct Hfd as [Hpos Hfds]. split; [exact Hpos|]. split; [exact Hfds|].
  split.
  - intros Hlt.
    assert (Hc : connected this' = true) by (unfold connected; lia).
    split; [exact Hc|]. split.
    + intros w2. unfold open. now rewrite Hc.
    + unfold close, bind. rewrite Hc. cbn. rewrite Hfds. cbn.
      now destruct (Z.eq_dec (_sockfd this') (_sockfd this')).
  - intros h errno ->. cbn [left_by_open] in Hleft. tauto.
Qed.

Lemma open_failure_after_socket_witness :
  let this := {| _uri := "cog://localhost/space"; _sockfd := -1 |} in
  let w := mkOS [] [(0, 0); (3, 0); (-1, 111)] [] [] in
  let this' := set_sockfd 3 this in
  let w' := snd (open false false this w) in
  0 <= _sockfd this' /\
  fds w' = _sockfd this' :: fds w /\
  (0 < _sockfd this' ->
   connected this' = true /\
   (forall w2, open false false this' w2 = (Returns tt, this', w2)) /\
   fds (snd (close this' w')) = remove Z.eq_dec (_sockfd this') (fds w)) /\
  (forall h errno,
      Unable_to_connect "localhost" 111 = Unable_to_connect h errno ->
      handshakes (calls w') = handshakes (calls w)).
Proof.
  apply (open_failure_after_socket false false
           {| _uri := "cog://localhost/space"; _sockfd := -1 |}
           (mkOS [] [(0, 0); (3, 0); (-1, 111)] [] [])
           (Unable_to_connect "localhost" 111));
    reflexivity.
Defined.

(** X10.  [open] throws none but its own four exceptions, with the host
    of the identifier in them, and the three of [do_recv]; its [substr]
    never throws.  It throws "Not connected to cogserver!" only when
    [socket] has returned the descriptor 0, which then stays open. *)
Theorem open_throws_only (apple garbage_default : bool) (this : Session)
    (w : OS) (e : exception) (this' : Session) (w' : OS) :
  open apple garbage_default this w = (Throws e, this', w') ->
  e <> std_out_of_range /\
  (forall uri, e <> Unknown_URI uri) /\
  (forall h x,
      e = Unknown_host h x \/ e = Unable_to_create_socket h x \/
      e = Unable_to_connect h x \/ e = Unable_to_talk_at_host h x ->
      exists port, resolve (_uri this) = Some (h, port)) /\
  (e = Not_connected -> _sockfd this' = 0 /\ In 0 (fds w')).
Proof.
  intros H.
  destruct (open_throws_resolved _ _ _ _ _ _ _ H)
    as (host & port & Hres & Huri & Hleft).
  repeat split.
  - intros ->. exact Hleft.
  - intros uri ->. exact Hleft.
  - intros h x [-> |[-> |[-> | ->]]]; cbn [left_by_open] in Hleft;
      destruct Hleft as [-> _]; now exists port.
  - subst e. cbn [left_by_open] in Hleft. tauto.
  - subst e. cbn [left_by_open] in Hleft. destruct Hleft as [_ ->]. now left.
Qed.

Lemma open_throws_only_witness :
  let this := {| _uri := "cog://localhost/space"; _sockfd := -1 |} in
  let w := mkOS [] [(0, 0); (0, 0); (0, 0); (0, 0); (0, 0); (6, 0)] [] [] in
  _sockfd (set_sockfd 0 this) = 0 /\
  In 0 (fds (snd (open false false this w))).
Proof.
  intros this w.
  assert (H : open false false this w =
              (Throws Not_connected, set_sockfd 0 this,
               snd (open false false this w))) by reflexivity.
  exact (proj2 (proj2 (proj2 (open_throws_only _ _ _ _ _ _ _ H))) eq_refl).
Defined.

(** ** The options of the socket *)

Lemma do_recv_same_incoming garbage this w w2 :
  incoming w = incoming w2 ->
  fst (do_recv garbage this w) = fst (do_recv garbage this w2).
Proof.
  intros Hin. unfold do_recv, throw.
  destruct (negb (connected this)); [reflexivity|].
  rewrite (do_recv_loop_erase_idle (incoming w) garbage "" true this w w).
  rewrite (do_recv_loop_erase_idle (incoming w2) garbage "" true this w2 w).
  now rewrite Hin.
Qed.

Ltac open_step_goal :=
  match goal with
  | |- context [if ?b then _ else _] => destruct b eqn:?; cbn
  | |- context [match ?l with nil => _ | cons _ _ => _ end] =>
      destruct l as [|[? ?] ?]; cbn
  end.

(** X11.  A [setsockopt] that fails is not fatal: what comes of [open]
    and the object afterwards are the same as when both calls (the one
    call, under [__APPLE__]) succeed; only the complaint on [stderr]
    tells them apart. *)
Theorem open_setsockopt_not_fatal (apple garbage_default : bool)
    (this : Session) (w : OS) (a1 a2 a3 o1 o2 : Z * Z)
    (rest : list (Z * Z)) :
  answers w =
    a1 :: a2 :: a3 :: o1 :: (if apple then rest else o2 :: rest) ->
  fst (open apple garbage_default this w) =
  fst (open apple garbage_default this
         (set_answers
            (a1 :: a2 :: a3 :: (0, 0)
                :: (if apple then rest else (0, 0) :: rest)) w)).
Proof.
  intros Ha. unfold open.
  destruct (connected this); [reflexivity|].
  destruct (resolve (_uri this)) as [[host port]|]; [|reflexivity].
  unfold bind, call, setsockopt_or_complain, fprintf_stderr, assign_sockfd,
    bind, call, throw, ret.
  rewrite Ha. cbn [answers set_answers].
  destruct a1 as [rc1 e1], a2 as [fd e2], a3 as [rc3 e3],
    o1 as [rc4 e4], o2 as [rc5 e5].
  destruct apple; cbn.
  all: repeat open_step_goal; try reflexivity.
  all: match goal with
       | |- context [do_recv ?g ?s ?wa] =>
           match goal with
           | |- fst _ = fst (let (_, _) := do_recv g s ?wb in _) =>
               pose proof (do_recv_same_incoming g s wa wb eq_refl) as Hsame;
               destruct (do_recv g s wa) as [[oa sa] wa'];
               destruct (do_recv g s wb) as [[ob sb] wb'];
               cbn in Hsame; injection Hsame as -> ->;
               now destruct ob
           end
       end.
Qed.

Lemma open_setsockopt_not_fatal_witness :
  let this := {| _uri := "cog://localhost/space"; _sockfd := -1 |} in
  fst (open false false this
         (mkOS [] [(0, 0); (3, 0); (0, 0); (-1, 92); (-1, 92); (6, 0)]
            [recv_data ("opencog> " ++ nl)] [])) =
  fst (open false false this
         (set_answers [(0, 0); (3, 0); (0, 0); (0, 0); (0, 0); (6, 0)]
            (mkOS [] [(0, 0); (3, 0); (0, 0); (-1, 92); (-1, 92); (6, 0)]
               [recv_data ("opencog> " ++ nl)] []))).
Proof.
  apply (open_setsockopt_not_fatal false false
           {| _uri := "cog://localhost/space"; _sockfd := -1 |}
           (mkOS [] [(0, 0); (3, 0); (0, 0); (-1, 92); (-1, 92); (6, 0)]
              [recv_data ("opencog> " ++ nl)] [])
           (0, 0) (3, 0) (0, 0) (-1, 92) (-1, 92) [(6, 0)]).
  reflexivity.
Defined.

(** ** What a session never changes, and what it never leaks *)

Lemma do_recv_keeps_uri garbage this w o this' w' :
  do_recv garbage this w = (o, this', w') -> _uri this' = _uri this.
Proof.
  unfold do_recv, throw. destruct (negb (connected this)).
  - now intros [= _ <- _].
  - intros H. apply do_recv_loop_frame in H.
    now destruct H as [[-> _]|(_ & -> & _)].
Qed.

Lemma open_keeps_uri apple garbage_default this w o this' w' :
  open apple garbage_default this w = (o, this', w') -> _uri this' = _uri this.
Proof.
  intros H. unfold open in H.
  unfold bind, call, setsockopt_or_complain, fprintf_stderr, assign_sockfd,
    bind, call, throw, ret in H.
  repeat open_step H.
  all: try match type of H with
       | context [do_recv _ ?s ?ws] =>
           destruct (do_recv garbage_default s ws) as [[o2 s2] w2] eqn:Hrecv;
           apply do_recv_keeps_uri in Hrecv;
           destruct o2; injection H as <- <- <-; exact Hrecv
       end.
  all: now injection H as <- <- <-.
Qed.

Lemma do_send_keeps_session str this w o this' w' :
  do_send str this w = (o, this', w') -> this' = this /\ fds w' = fds w.
Proof.
  unfold do_send, bind, call, throw, ret.
  destruct (negb (connected this)); [now intros [= _ <- <-]|].
  destruct (answers w) as [|[rc errno] rest]; [now intros [= _ <- <-]|].
  cbn. now destruct (rc <? 0); intros [= _ <- <-].
Qed.

Lemma serve_keeps_uri apple garbage_default r this w o this' w' :
  serve apple garbage_default r this w = (o, this', w') ->
  _uri this' = _uri this.
Proof.
  destruct r as [| |str|garbage]; cbn [serve].
  - apply open_keeps_uri.
  - unfold close, bind. destruct (connected this); cbn;
      now intros [= _ <- _].
  - intros H. apply do_send_keeps_session in H. now destruct H as [-> _].
  - unfold bind, ret.
    destruct (do_recv garbage this w) as [[o2 s2] w2] eqn:Hrecv.
    apply do_recv_keeps_uri in Hrecv.
    destruct o2; now intros [= _ <- _].
Qed.

(** X12.  The identifier of a session never changes: after any requests
    it is the C string the constructor has kept, which starts with
    [cog://]; every [open] works out the same host and port. *)
Theorem uri_never_changes (apple garbage_default : bool) (uri : string)
    (this0 : Session) (w0 : OS) (reqs : list request) :
  CogSimpleStorage uri = inr this0 ->
  _uri (fst (run apple garbage_default reqs this0 w0)) = Str.c_str uri /\
  String.prefix "cog://" (Str.c_str uri) = true.
Proof.
  intros Hnew.
  assert (Huri : _uri this0 = Str.c_str uri /\
                 String.prefix "cog://" (Str.c_str uri) = true).
  { unfold CogSimpleStorage, init in Hnew.
    change URIX_LEN with (String.length "cog://") in Hnew.
    rewrite (strncmp_prefix "cog://" eq_refl) in Hnew.
    destruct (String.prefix "cog://" (Str.c_str uri)); [|discriminate Hnew].
    now injection Hnew as <-. }
  destruct Huri as [Huri Hprefix]. split; [|exact Hprefix].
  rewrite <- Huri. clear. revert this0 w0.
  induction reqs as [|r more IH]; intros this w; [reflexivity|].
  cbn [run].
  destruct (serve apple garbage_default r this w) as [[o this'] w'] eqn:Hs.
  rewrite IH. exact (serve_keeps_uri _ _ _ _ _ _ _ _ Hs).
Qed.

Lemma uri_never_changes_witness :
  _uri (fst (run false false [req_open; req_recv false; req_close; req_open]
               {| _uri := "cog://localhost/my-space"; _sockfd := -1 |}
               (mkOS [] answers_ok [recv_data ""] []))) =
    Str.c_str "cog://localhost/my-space" /\
  String.prefix "cog://" (Str.c_str "cog://localhost/my-space") = true.
Proof.
  apply (uri_never_changes false false "cog://localhost/my-space").
  reflexivity.
Defined.

Lemma do_recv_holds_only garbage this w o this' w' :
  holds_only_sockfd this w ->
  do_recv garbage this w = (o, this', w') ->
  holds_only_sockfd this' w'.
Proof.
  intros Hinv H. unfold do_recv, throw in H.
  destruct (connected this) eqn:Hc; cbn [negb] in H.
  - destruct (do_recv_loop_frame _ _ _ _ _ _ _ _ _ H) as [[-> Ho]|(-> & -> & _)].
    + destruct (do_recv_loop_os _ _ _ _ _ _ _ _ _ H) as (_ & _ & Hfds).
      unfold holds_only_sockfd. rewrite (Hfds Ho). exact Hinv.
    + apply do_recv_loop_throws in H; [|exact Hc].
      destruct H as (_ & _ & Hfds). intros fd Hin. rewrite Hfds in Hin.
      apply in_remove in Hin. destruct Hin as [Hin Hne].
      right. destruct (Hinv fd Hin); [contradiction|assumption].
  - now injection H as <- <- <-.
Qed.

Lemma open_holds_only apple garbage_default this w o this' w' :
  holds_only_sockfd this w ->
  open apple garbage_default this w = (o, this', w') ->
  holds_only_sockfd this' w'.
Proof.
  intros Hinv H. unfold open in H.
  destruct (connected this) eqn:Hc; [now injection H as <- <- <-|].
  assert (Hnew : forall fd l,
             (l = fd :: fds w \/ l = fds w) ->
             forall x, In x l -> x = fd \/ x <= 0).
  { intros fd l Hl x Hx. unfold connected in Hc.
    assert (Hold : In x (fds w) -> x <= 0)
      by (intros Hw; destruct (Hinv x Hw); lia).
    destruct Hl as [-> | ->]; [destruct Hx as [<-|Hx]|]; auto. }
  unfold bind, call, setsockopt_or_complain, fprintf_stderr, assign_sockfd,
    bind, call, throw, ret in H.
  repeat open_step H.
  all: try match type of H with
       | context [do_recv _ ?s ?ws] =>
           destruct (do_recv garbage_default s ws) as [[o2 s2] w2] eqn:Hrecv;
           apply do_recv_holds_only in Hrecv;
           [destruct o2; injection H as <- <- <-; exact Hrecv|]
       end.
  all: try (injection H as <- <- <-).
  all: try exact Hinv.
  all: unfold holds_only_sockfd; cbn [fds log set_answers set_fds _sockfd
                                      set_sockfd];
       apply Hnew; auto.
Qed.

Lemma serve_holds_only apple garbage_default r this w o this' w' :
  holds_only_sockfd this w ->
  serve apple garbage_default r this w = (o, this', w') ->
  holds_only_sockfd this' w'.
Proof.
  intros Hinv. destruct r as [| |str|garbage]; cbn [serve].
  - now apply open_holds_only.
  - unfold close, bind. destruct (connected this) eqn:Hc; cbn;
      intros H; injection H as <- <- <-; intros fd Hin; cbn in Hin |- *.
    + apply in_remove in Hin. destruct Hin as [Hin Hne].
      right. destruct (Hinv fd Hin); [contradiction|assumption].
    + unfold connected in Hc. right. destruct (Hinv fd Hin); lia.
  - intros H. apply do_send_keeps_session in H. destruct H as [-> Hf].
    unfold holds_only_sockfd. now rewrite Hf.
  - unfold bind, ret.
    destruct (do_recv garbage this w) as [[o2 s2] w2] eqn:Hrecv.
    apply do_recv_holds_only in Hrecv; [|exact Hinv].
    destruct o2; intros H; injection H as <- <- <-; exact Hrecv.
Qed.

(** X13.  A session leaks no descriptor above 0.  In a process that
    held none to begin with, after any requests the only descriptor
    above 0 that the process holds is the one in [_sockfd], and once
    the destructor has run it holds none. *)
Theorem no_descriptor_leak (apple garbage_default : bool)
    (this0 : Session) (w0 : OS) (reqs : list request) :
  (forall fd, In fd (fds w0) -> fd <= 0) ->
  let this := fst (run apple garbage_default reqs this0 w0) in
  let w := snd (run apple garbage_default reqs this0 w0) in
  holds_only_sockfd this w /\
  (forall fd, In fd (fds (snd (CogSimpleStorage_destructor this w))) -> fd <= 0).
Proof.
  intros Hnone. cbv zeta.
  assert (Hinv : holds_only_sockfd this0 w0) by (intros fd Hin; auto).
  clear Hnone. revert this0 w0 Hinv.
  induction reqs as [|r more IH]; intros this w Hinv.
  - cbn [run fst snd]. split; [exact Hinv|].
    destruct (CogSimpleStorage_destructor this w) as [[o this'] w'] eqn:Hd.
    pose proof (serve_holds_only apple garbage_default req_close
                  _ _ _ _ _ Hinv Hd) as Hheld.
    assert (Hfd : _sockfd this' = -1).
    { unfold CogSimpleStorage_destructor, close, bind in Hd.
      destruct (connected this); cbn in Hd; now injection Hd as _ <- _. }
    cbn [snd]. intros fd Hin. destruct (Hheld fd Hin); lia.
  - cbn [run].
    destruct (serve apple garbage_default r this w) as [[o this'] w'] eqn:Hs.
    apply IH. exact (serve_holds_only _ _ _ _ _ _ _ _ Hinv Hs).
Qed.

Lemma no_descriptor_leak_witness :
  let this0 := {| _uri := "cog://localhost/my-space"; _sockfd := -1 |} in
  let w0 := mkOS [] (answers_ok ++ [(0, 0); (4, 0); (-1, 111)])
              [recv_data ("opencog> " ++ nl); recv_data ""] [] in
  let reqs := [req_open; req_recv false; req_open] in
  let this := fst (run false false reqs this0 w0) in
  let w := snd (run false false reqs this0 w0) in
  holds_only_sockfd this w /\
  (forall fd, In fd (fds (snd (CogSimpleStorage_destructor this w))) -> fd <= 0).
Proof.
  apply (no_descriptor_leak false false).
  intros fd [].
Defined.

(** ** Opening again, and one exchange *)

Lemma open_returns_connected apple garbage_default this w this1 w1 :
  connected this = false ->
  open apple garbage_default this w = (Returns tt, this1, w1) ->
  connected this1 = true /\
  handshakes (calls w1) = S (handshakes (calls w)).
Proof.
  intros Hc Hopen.
  destruct (open_returns _ _ _ _ _ _ Hc Hopen)
    as (host & port & fd & setup & w_sent & msg & Hres & Hsetup & Hsent & Hrecv).
  destruct (do_recv_returns _ _ _ _ _ _ Hrecv)
    as (Hc1 & -> & made & Hmade & Hrc).
  split; [exact Hc1|].
  rewrite Hmade, Hsent. rewrite !handshakes_app.
  assert (Hs : handshakes setup = 0%nat)
    by (apply (handshakes_none is_setup); [now intros []|exact Hsetup]).
  assert (Hm : handshakes made = 0%nat)
    by (apply (handshakes_none recv_or_close); [now intros []|exact Hrc]).
  rewrite Hs, Hm. unfold handshakes. cbn [filter is_handshake].
  rewrite String.eqb_refl. cbn. lia.
Qed.

(** X14.  A session can be opened again: an [open] that returns after a
    [close], whatever the state before the [close], has set the session
    up anew, with a new handshake, for the same identifier. *)
Theorem reopen_after_close (apple garbage_default : bool) (this : Session)
    (w : OS) (this2 : Session) (w2 : OS) :
  let this1 := set_sockfd (-1) this in
  let w1 := snd (close this w) in
  open apple garbage_default this1 w1 = (Returns tt, this2, w2) ->
  close this w = (Returns tt, this1, w1) /\
  connected this2 = true /\
  handshakes (calls w2) = S (handshakes (calls w)) /\
  _uri this2 = _uri this.
Proof.
  cbv zeta. intros Hopen.
  assert (Hclose : close this w =
                   (Returns tt, set_sockfd (-1) this, snd (close this w)))
    by (unfold close, bind; now destruct (connected this)).
  split; [exact Hclose|].
  destruct (open_returns_connected apple garbage_default
              (set_sockfd (-1) this) _ _ _ eq_refl Hopen) as [Hc Hh].
  split; [exact Hc|]. split.
  - rewrite Hh. f_equal. unfold close, bind.
    destruct (connected this); cbn -[handshakes]; [|reflexivity].
    rewrite handshakes_app. cbn. lia.
  - now rewrite (open_keeps_uri _ _ _ _ _ _ _ Hopen).
Qed.

Lemma reopen_after_close_witness :
  let this := session3 in
  let w := mkOS [3] answers_ok [recv_data ("opencog> " ++ nl)] [] in
  let this1 := set_sockfd (-1) this in
  let w1 := snd (close this w) in
  let this2 := set_sockfd 3 this in
  let w2 := snd (open false false this1 w1) in
  close this w = (Returns tt, this1, w1) /\
  connected this2 = true /\
  handshakes (calls w2) = S (handshakes (calls w)) /\
  _uri this2 = _uri this.
Proof.
  apply (reopen_after_close false false session3
           (mkOS [3] answers_ok [recv_data ("opencog> " ++ nl)] [])).
  reflexivity.
Defined.

(** X15.  After a receive has found the peer closed, the session needs
    no [close] to be opened again: the 0 left in [_sockfd] reads as not
    connected, and an [open] that returns has set the session up anew,
    with a new handshake. *)
Theorem reopen_after_peer_closed (apple garbage_default garbage : bool)
    (this0 : Session) (w0 : OS) (this : Session) (w : OS)
    (this2 : Session) (w2 : OS) :
  do_recv garbage this0 w0 = (Throws Unexpectedly_closed, this, w) ->
  open apple garbage_default this w = (Returns tt, this2, w2) ->
  connected this = false /\
  connected this2 = true /\
  handshakes (calls w2) = S (handshakes (calls w)) /\
  _uri this2 = _uri this0.
Proof.
  intros Hrecv Hopen.
  pose proof (do_recv_keeps_uri _ _ _ _ _ _ Hrecv) as Huri.
  apply do_recv_throws in Hrecv. destruct Hrecv as (_ & Hthis & _).
  assert (Hc : connected this = false) by now rewrite Hthis.
  split; [exact Hc|].
  destruct (open_returns_connected _ _ _ _ _ _ Hc Hopen) as [Hc2 Hh].
  split; [exact Hc2|]. split; [exact Hh|].
  now rewrite (open_keeps_uri _ _ _ _ _ _ _ Hopen).
Qed.

Lemma reopen_after_peer_closed_witness :
  let w0 := mkOS [3] answers_ok
              [recv_data ""; recv_data ("opencog> " ++ nl)] [] in
  let this := set_sockfd 0 session3 in
  let w := snd (do_recv false session3 w0) in
  let this2 := session3 in
  let w2 := snd (open false false this w) in
  connected this = false /\
  connected this2 = true /\
  handshakes (calls w2) = S (handshakes (calls w)) /\
  _uri this2 = _uri session3.
Proof.
  intros w0 this w this2 w2.
  assert (Hrecv : do_recv false session3 w0 =
                  (Throws Unexpectedly_closed, this, w))
    by (vm_compute; reflexivity).
  assert (Hopen : open false false this w = (Returns tt, this2, w2))
    by (vm_compute; reflexivity).
  exact (reopen_after_peer_closed false false false session3 w0 this w
           this2 w2 Hrecv Hopen).
Defined.

(** X16.  One exchange.  On a connected session, when [send] reports no
    error (whatever count it returns, also one below the length of the
    command) and the answer comes as chunks on which the loop goes on
    reading and a last chunk that ends in a newline, [do_send] followed
    by [do_recv] returns the answer put together; the calls made are the
    one [send] of the whole command and one [recv] for each chunk, and
    the session is as before. *)
Theorem exchange (this : Session) (w : OS) (cmd : string) (rc errno : Z)
    (arest : list (Z * Z)) (before : list string) (last : string)
    (rest : list recv_answer) :
  connected this = true ->
  answers w = (rc, errno) :: arest ->
  0 <= rc ->
  keeps_reading false true before = true ->
  newline_terminated last = true ->
  incoming w = (map recv_data before ++ recv_data last :: rest)%list ->
  exists w',
    (do_send cmd ;; do_recv false) this w =
      (Returns (message (before ++ [last])), this, w') /\
    answers w' = arest /\
    incoming w' = rest /\
    calls w' =
      (calls w ++ sys_send (_sockfd this) cmd
         :: repeat (sys_recv (_sockfd this) 4096)
              (S (List.length before)))%list.
Proof.
  intros Hc Ha Hrc Hk Hnl Hin.
  unfold bind, do_send, bind, call, throw, ret. rewrite Hc, Ha. cbn [negb fst].
  replace (rc <? 0) with false by (symmetry; apply Z.ltb_ge; lia).
  rewrite (do_recv_connected _ _ _ Hc). cbn [incoming log set_answers].
  rewrite Hin.
  destruct (do_recv_loop_message before false "" true last rest this
              (log (sys_send (_sockfd this) cmd) (set_answers arest w))
              Hk Hnl (fun _ => eq_refl))
    as (w' & Heq & Hi & Hcalls).
  exists w'. rewrite Heq. split; [reflexivity|].
  split; [|split; [exact Hi|]].
  - now destruct (do_recv_loop_os _ _ _ _ _ _ _ _ _ Heq) as (-> & _).
  - rewrite Hcalls. cbn [calls log set_answers]. now rewrite <- app_assoc.
Qed.

Lemma exchange_witness :
  exists w',
    (do_send ("ping" ++ nl) ;; do_recv false) session3
      (mkOS [3] [(2, 0)] [recv_data "po"; recv_data ("ng" ++ nl)] []) =
      (Returns ("pong" ++ nl), session3, w') /\
    answers w' = [] /\
    incoming w' = [] /\
    calls w' = sys_send 3 ("ping" ++ nl) :: repeat (sys_recv 3 4096) 2.
Proof.
  apply (exchange session3
           (mkOS [3] [(2, 0)] [recv_data "po"; recv_data ("ng" ++ nl)] [])
           ("ping" ++ nl) 2 0 [] ["po"] ("ng" ++ nl) []);
    try reflexivity.
  lia.
Defined.

(** ** When the greeting flag matters *)

Lemma do_recv_loop_later_turns pending :
  forall garbage garbage' rb this w,
    do_recv_loop garbage rb false pending this w =
    do_recv_loop garbage' rb false pending this w.
Proof.
  induction pending as [|[errno|buf] rest IH]; intros; [reflexivity..|].
  cbn [do_recv_loop andb].
  destruct (Z.of_nat (String.length buf) =? 0); [reflexivity|].
  destruct (_ && Ascii.eqb Str.SYN _); [apply IH|].
  destruct (Ascii.eqb Str.LF _); [reflexivity|apply IH].
Qed.

Lemma do_recv_loop_flag_free pending :
  forall rb this w,
    flag_free (first_chunk pending) = true ->
    do_recv_loop true rb true pending this w =
    do_recv_loop false rb true pending this w.
Proof.
  induction pending as [|[errno|buf] rest IH]; intros rb this w Hfree;
    [reflexivity..|].
  unfold first_chunk in Hfree. cbn [find idle_answer] in Hfree.
  cbn [do_recv_loop].
  destruct (idle buf) eqn:Hidle; cbn [negb] in Hfree.
  - pose proof Hidle as Hi. unfold idle in Hi. rewrite Hi.
    apply idle_iff in Hidle. subst buf. cbn [String.length Z.of_nat].
    cbn. now apply IH.
  - unfold idle in Hidle. rewrite Hidle. cbn [flag_free] in Hfree.
    unfold newline_terminated in Hfree.
    destruct (Z.of_nat (String.length buf) =? 0); [reflexivity|].
    cbn [orb] in Hfree.
    destruct (Ascii.eqb Str.LF _); [now rewrite !orb_true_l|].
    cbn [orb] in Hfree. apply negb_true_iff in Hfree. rewrite Hfree.
    cbn [andb]. apply do_recv_loop_later_turns.
Qed.

(** X17.  The greeting flag matters only for a first chunk that is
    short and does not end in a newline: when the first chunk that is
    not an idle character is empty, ends in a newline or has the full
    4096 characters, or when [recv] fails or never answers before such a
    chunk, [do_recv(true)] and [do_recv(false)] do the same. *)
Theorem greeting_flag_matters_only_for_short_first_chunk (this : Session)
    (w : OS) :
  flag_free (first_chunk (incoming w)) = true ->
  do_recv true this w = do_recv false this w.
Proof.
  intros Hfree. unfold do_recv.
  destruct (negb (connected this)); [reflexivity|].
  now apply do_recv_loop_flag_free.
Qed.

Lemma greeting_flag_matters_only_for_short_first_chunk_witness :
  do_recv true session3
    (mkOS [3] [] [recv_data (String Str.SYN ""); recv_data ("pong" ++ nl)] []) =
  do_recv false session3
    (mkOS [3] [] [recv_data (String Str.SYN ""); recv_data ("pong" ++ nl)] []).
Proof.
  apply (greeting_flag_matters_only_for_short_first_chunk session3
           (mkOS [3] []
              [recv_data (String Str.SYN ""); recv_data ("pong" ++ nl)] [])).
  reflexivity.
Defined.
